(** * A shallow embedding of the react-ive-forms control tree

    The TypeScript sources model a form as a tree of mutable objects
    ([FormControl], [FormGroup], [FormArray], all deriving from
    [AbstractControl] in FieldControl.ts) linked by parent pointers.  We
    model the heap of control objects as a finite map from object ids to
    records, and every method as a computation in a state-and-exception
    monad: a JavaScript [throw] (an [Error] of the code, or a [TypeError]
    raised by the runtime) keeps the mutations done before it.  Recursion
    along parent or child links is bounded by a fuel argument, since the
    heap itself does not rule out cycles. *)

From stdpp Require Import base gmap strings list pretty.
From Stdlib Require Import Ascii.

Local Set Warnings "-register-all".

(* ------------------------------------------------------------------ *)
(** ** JavaScript values *)

Inductive jsval : Type :=
| JUndefined
| JNull
| JBool (b : bool)
| JNum (n : Z)
| JStr (s : string)
| JArr (l : list jsval)
| JObj (fields : list (string * jsval)).

(** Property lookup on an association list (first binding wins; the code
    only builds objects with unique keys). *)
Fixpoint obj_get {A} (l : list (string * A)) (k : string) : option A :=
  match l with
  | [] => None
  | (k', v) :: l' => if String.eqb k k' then Some v else obj_get l' k
  end.

(** [o[k] = v]: an existing key keeps its position, a new one is appended. *)
Fixpoint obj_set {A} (l : list (string * A)) (k : string) (v : A) : list (string * A) :=
  match l with
  | [] => [(k, v)]
  | (k', v') :: l' => if String.eqb k k' then (k, v) :: l' else (k', v') :: obj_set l' k v
  end.

(** [delete o[k]] *)
Definition obj_delete {A} (l : list (string * A)) (k : string) : list (string * A) :=
  filter (fun kv => negb (String.eqb k kv.1)) l.

(** JavaScript truthiness. *)
Definition truthy (v : jsval) : bool :=
  match v with
  | JUndefined | JNull => false
  | JBool b => b
  | JNum n => negb (Z.eqb n 0)
  | JStr s => negb (String.eqb s "")
  | JArr _ | JObj _ => true
  end.

(** [Object.keys(v)]; it throws on [null] and [undefined]. *)
Definition js_keys (v : jsval) : option (list string) :=
  match v with
  | JUndefined | JNull => None
  | JObj l => Some (map fst l)
  | JArr l => Some (map pretty (seq 0 (length l)))
  | JStr s => Some (map pretty (seq 0 (String.length s)))
  | JBool _ | JNum _ => Some []
  end.

(** [v[k]]; it throws on [null] and [undefined]. *)
Definition js_get (v : jsval) (k : string) : option jsval :=
  match v with
  | JUndefined | JNull => None
  | JObj l => Some (default JUndefined (obj_get l k))
  | JArr l =>
      if String.eqb k "length" then Some (JNum (Z.of_nat (length l))) else
      Some (default JUndefined
              (head (omap (fun i => if String.eqb (pretty i) k then l !! i else None)
                          (seq 0 (length l)))))
  | JStr s =>
      if String.eqb k "length" then Some (JNum (Z.of_nat (String.length s))) else
      Some (default JUndefined
              (head (omap (fun i => if String.eqb (pretty i) k
                                    then option_map (fun a => JStr (String a EmptyString))
                                                    (String.get i s)
                                    else None)
                          (seq 0 (String.length s)))))
  | JBool _ | JNum _ => Some JUndefined
  end.

(* ------------------------------------------------------------------ *)
(** ** types.ts *)

Inductive FieldStatus := VALID | INVALID | PENDING | DISABLED.

Definition FieldStatus_eqb (a b : FieldStatus) : bool :=
  match a, b with
  | VALID, VALID | INVALID, INVALID | PENDING, PENDING | DISABLED, DISABLED => true
  | _, _ => false
  end.

Inductive FormHooks := change | blur | submit.

Definition FormHooks_eqb (a b : FormHooks) : bool :=
  match a, b with
  | change, change | blur, blur | submit, submit => true
  | _, _ => false
  end.

(** [ValidationErrors = { [key: string]: any }]; a [null] map is [None]. *)
Definition ValidationErrors := list (string * jsval).

(** [UpdateOptions]: each field may be absent ([None] = [undefined]). *)
Record UpdateOptions := mkOpts { onlySelf : option bool; emitEvent : option bool }.

Definition opt_truthy (b : option bool) : bool := match b with Some true => true | _ => false end.
Definition not_false (b : option bool) : bool := match b with Some false => false | _ => true end.

(** [{}] *)
Definition no_opts : UpdateOptions := mkOpts None None.

(* ------------------------------------------------------------------ *)
(** ** The heap of control objects *)

Definition cid := nat.

(** The children of a control: a [FormControl] has none, a [FormGroup]
    holds its [controls] object (keys in insertion order), a [FormArray]
    its [controls] array. *)
Inductive ControlKind :=
| KControl
| KGroup (controls : list (string * cid))
| KArray (controls : list cid).

(** The function stored in [_onCollectionChange].  Every definition of it
    in the code is the empty arrow [() => {}]; we record whose it is. *)
Inductive CollectionCallback := cb_empty | cb_of (owner : cid).

(** The fields of an [AbstractControl] object.  Synchronous validators are
    references into an environment of validator functions (see the
    section below); the asynchronous validator only matters through
    whether it is set.  [_asyncValidationSubscription] is [Some e] while
    a subscription is open, [e] being the [emitEvent] its observer closes
    over.  [_onDisabledChange] is omitted: nothing in the code ever adds a
    callback to it, so its [forEach] calls do nothing. *)
Record AbstractControl := mkControl {
  kind : ControlKind;
  value : jsval;
  _pendingValue : jsval;
  status : FieldStatus;
  errors : option ValidationErrors;
  touched : bool;
  submitted : bool;
  pristine : bool;
  _pendingChange : bool;
  _pendingDirty : bool;
  _pendingTouched : bool;
  _parent : option cid;
  _updateOn : option FormHooks;
  validator : option nat;
  asyncValidator : option nat;
  _asyncValidationSubscription : option bool;
  _onCollectionChange : CollectionCallback
}.

Definition disabled (c : AbstractControl) : bool := FieldStatus_eqb (status c) DISABLED.
Definition enabled (c : AbstractControl) : bool := negb (disabled c).
Definition dirty (c : AbstractControl) : bool := negb (pristine c).

(** Modelled from the spec: [FormControl._forEachChild], absent from the
    FormControl sources although [AbstractControl] declares it abstract;
    a leaf has no children to visit. *)
Definition FormControl__forEachChild : list cid := [].

(** The children [_forEachChild] visits, in order. *)
Definition children_of (c : AbstractControl) : list cid :=
  match kind c with
  | KControl => FormControl__forEachChild
  | KGroup cs => map snd cs
  | KArray cs => cs
  end.

(** Field updates. *)
Definition set_value (v : jsval) (c : AbstractControl) : AbstractControl :=
  mkControl (kind c) v (_pendingValue c) (status c) (errors c) (touched c) (submitted c)
    (pristine c) (_pendingChange c) (_pendingDirty c) (_pendingTouched c) (_parent c)
    (_updateOn c) (validator c) (asyncValidator c) (_asyncValidationSubscription c)
    (_onCollectionChange c).
Definition set_pendingValue (v : jsval) (c : AbstractControl) : AbstractControl :=
  mkControl (kind c) (value c) v (status c) (errors c) (touched c) (submitted c)
    (pristine c) (_pendingChange c) (_pendingDirty c) (_pendingTouched c) (_parent c)
    (_updateOn c) (validator c) (asyncValidator c) (_asyncValidationSubscription c)
    (_onCollectionChange c).
Definition set_status (s : FieldStatus) (c : AbstractControl) : AbstractControl :=
  mkControl (kind c) (value c) (_pendingValue c) s (errors c) (touched c) (submitted c)
    (pristine c) (_pendingChange c) (_pendingDirty c) (_pendingTouched c) (_parent c)
    (_updateOn c) (validator c) (asyncValidator c) (_asyncValidationSubscription c)
    (_onCollectionChange c).
Definition set_errors (e : option ValidationErrors) (c : AbstractControl) : AbstractControl :=
  mkControl (kind c) (value c) (_pendingValue c) (status c) e (touched c) (submitted c)
    (pristine c) (_pendingChange c) (_pendingDirty c) (_pendingTouched c) (_parent c)
    (_updateOn c) (validator c) (asyncValidator c) (_asyncValidationSubscription c)
    (_onCollectionChange c).
Definition set_touched (b : bool) (c : AbstractControl) : AbstractControl :=
  mkControl (kind c) (value c) (_pendingValue c) (status c) (errors c) b (submitted c)
    (pristine c) (_pendingChange c) (_pendingDirty c) (_pendingTouched c) (_parent c)
    (_updateOn c) (validator c) (asyncValidator c) (_asyncValidationSubscription c)
    (_onCollectionChange c).
Definition set_pristine (b : bool) (c : AbstractControl) : AbstractControl :=
  mkControl (kind c) (value c) (_pendingValue c) (status c) (errors c) (touched c) (submitted c)
    b (_pendingChange c) (_pendingDirty c) (_pendingTouched c) (_parent c)
    (_updateOn c) (validator c) (asyncValidator c) (_asyncValidationSubscription c)
    (_onCollectionChange c).
Definition set_pendingChange (b : bool) (c : AbstractControl) : AbstractControl :=
  mkControl (kind c) (value c) (_pendingValue c) (status c) (errors c) (touched c) (submitted c)
    (pristine c) b (_pendingDirty c) (_pendingTouched c) (_parent c)
    (_updateOn c) (validator c) (asyncValidator c) (_asyncValidationSubscription c)
    (_onCollectionChange c).
Definition set_pendingDirty (b : bool) (c : AbstractControl) : AbstractControl :=
  mkControl (kind c) (value c) (_pendingValue c) (status c) (errors c) (touched c) (submitted c)
    (pristine c) (_pendingChange c) b (_pendingTouched c) (_parent c)
    (_updateOn c) (validator c) (asyncValidator c) (_asyncValidationSubscription c)
    (_onCollectionChange c).
Definition set_pendingTouched (b : bool) (c : AbstractControl) : AbstractControl :=
  mkControl (kind c) (value c) (_pendingValue c) (status c) (errors c) (touched c) (submitted c)
    (pristine c) (_pendingChange c) (_pendingDirty c) b (_parent c)
    (_updateOn c) (validator c) (asyncValidator c) (_asyncValidationSubscription c)
    (_onCollectionChange c).
Definition set_parent (p : option cid) (c : AbstractControl) : AbstractControl :=
  mkControl (kind c) (value c) (_pendingValue c) (status c) (errors c) (touched c) (submitted c)
    (pristine c) (_pendingChange c) (_pendingDirty c) (_pendingTouched c) p
    (_updateOn c) (validator c) (asyncValidator c) (_asyncValidationSubscription c)
    (_onCollectionChange c).
Definition set_updateOn (h : option FormHooks) (c : AbstractControl) : AbstractControl :=
  mkControl (kind c) (value c) (_pendingValue c) (status c) (errors c) (touched c) (submitted c)
    (pristine c) (_pendingChange c) (_pendingDirty c) (_pendingTouched c) (_parent c)
    h (validator c) (asyncValidator c) (_asyncValidationSubscription c)
    (_onCollectionChange c).
Definition set_kind (k : ControlKind) (c : AbstractControl) : AbstractControl :=
  mkControl k (value c) (_pendingValue c) (status c) (errors c) (touched c) (submitted c)
    (pristine c) (_pendingChange c) (_pendingDirty c) (_pendingTouched c) (_parent c)
    (_updateOn c) (validator c) (asyncValidator c) (_asyncValidationSubscription c)
    (_onCollectionChange c).
Definition set_subscription (o : option bool) (c : AbstractControl) : AbstractControl :=
  mkControl (kind c) (value c) (_pendingValue c) (status c) (errors c) (touched c) (submitted c)
    (pristine c) (_pendingChange c) (_pendingDirty c) (_pendingTouched c) (_parent c)
    (_updateOn c) (validator c) (asyncValidator c) o (_onCollectionChange c).
Definition set_onCollectionChange (f : CollectionCallback) (c : AbstractControl) : AbstractControl :=
  mkControl (kind c) (value c) (_pendingValue c) (status c) (errors c) (touched c) (submitted c)
    (pristine c) (_pendingChange c) (_pendingDirty c) (_pendingTouched c) (_parent c)
    (_updateOn c) (validator c) (asyncValidator c) (_asyncValidationSubscription c) f.
Definition set_submitted (b : bool) (c : AbstractControl) : AbstractControl :=
  mkControl (kind c) (value c) (_pendingValue c) (status c) (errors c) (touched c) b
    (pristine c) (_pendingChange c) (_pendingDirty c) (_pendingTouched c) (_parent c)
    (_updateOn c) (validator c) (asyncValidator c) (_asyncValidationSubscription c)
    (_onCollectionChange c).
Definition set_validator (v : option nat) (c : AbstractControl) : AbstractControl :=
  mkControl (kind c) (value c) (_pendingValue c) (status c) (errors c) (touched c) (submitted c)
    (pristine c) (_pendingChange c) (_pendingDirty c) (_pendingTouched c) (_parent c)
    (_updateOn c) v (asyncValidator c) (_asyncValidationSubscription c)
    (_onCollectionChange c).
Definition set_asyncValidator (v : option nat) (c : AbstractControl) : AbstractControl :=
  mkControl (kind c) (value c) (_pendingValue c) (status c) (errors c) (touched c) (submitted c)
    (pristine c) (_pendingChange c) (_pendingDirty c) (_pendingTouched c) (_parent c)
    (_updateOn c) (validator c) v (_asyncValidationSubscription c)
    (_onCollectionChange c).

(** Notifications pushed on the [valueChanges], [statusChanges] and
    [stateChanges] subjects, in the order they are emitted. *)
Inductive event :=
| ValueChanged (id : cid) (v : jsval)
| StatusChanged (id : cid) (s : FieldStatus)
| StateChanged (id : cid).

Record state := mkState { store : gmap cid AbstractControl; log : list event; fresh : cid }.

Inductive exn :=
| TypeError (msg : string)   (** raised by the runtime *)
| Error (msg : string)       (** [throw new Error(msg)] in the code *)
| OutOfFuel.

Inductive res (A : Type) :=
| Ok (s : state) (a : A)
| Throw (s : state) (e : exn).
Arguments Ok {A} s a.
Arguments Throw {A} s e.

(* ------------------------------------------------------------------ *)
(** ** The state-and-exception monad *)

Definition M (A : Type) := state -> res A.

Definition ret {A} (a : A) : M A := fun s => Ok s a.
Definition bind {A B} (m : M A) (k : A -> M B) : M B :=
  fun s => match m s with Ok s' a => k a s' | Throw s' e => Throw s' e end.
Definition throw {A} (e : exn) : M A := fun s => Throw s e.

Notation "'let*' x ':=' m 'in' k" := (bind m (fun x => k))
  (at level 200, x name, m at level 100, k at level 200).
Notation "m ;; k" := (bind m (fun _ => k)) (at level 100, k at level 200, right associativity).

Definition msg_undefined : string := "Cannot read properties of undefined".

Definition get_control (id : cid) : M AbstractControl :=
  fun s => match store s !! id with
           | Some c => Ok s c
           | None => Throw s (TypeError msg_undefined)
           end.

Definition modify (id : cid) (f : AbstractControl -> AbstractControl) : M unit :=
  fun s => match store s !! id with
           | Some c => Ok (mkState (<[id := f c]> (store s)) (log s) (fresh s)) tt
           | None => Throw s (TypeError msg_undefined)
           end.

Definition emit (e : event) : M unit :=
  fun s => Ok (mkState (store s) (log s ++ [e]) (fresh s)) tt.

Definition get_store : M (gmap cid AbstractControl) := fun s => Ok s (store s).

(** Reading a field of an options argument that may be [undefined]. *)
Definition deref_opts (o : option UpdateOptions) : M UpdateOptions :=
  match o with Some o => ret o | None => throw (TypeError msg_undefined) end.

Fixpoint for_each {A} (l : list A) (f : A -> M unit) : M unit :=
  match l with [] => ret tt | x :: l' => f x ;; for_each l' f end.

(* ------------------------------------------------------------------ *)
(** ** validators (utils.ts) *)

(** [Object.assign(target, source)] for one source: each own key of the
    source is written into the target in order. *)
Definition assign {A} (target source : list (string * A)) : list (string * A) :=
  fold_left (fun acc kv => obj_set acc kv.1 kv.2) source target.

Module Validators.
Section Validators.
(** Validators receive the control; the built-in ones read its value. *)
Context {C : Type} (control_value : C -> jsval).

Definition ValidatorFn := C -> option ValidationErrors.

(** [value == null || value.length === 0] *)
Definition isEmptyInputValue (v : jsval) : bool :=
  match v with
  | JUndefined | JNull => true
  | _ => match js_get v "length" with Some (JNum 0) => true | _ => false end
  end.

(** [o != null && o !== undefined] *)
Definition isPresent (o : option ValidatorFn) : bool := if o then true else false.

(** [arrayOfErrors.reduce((res, errors) => errors != null
       ? Object.assign({}, res, errors) : res, {})], then [null] when the
    result has no key. *)
Definition _mergeErrors (arrayOfErrors : list (option ValidationErrors))
  : option ValidationErrors :=
  let res := fold_left (fun res errors =>
               match errors with
               | Some e => assign (assign [] res) e
               | None => res
               end) arrayOfErrors [] in
  if Nat.eqb (length res) 0 then None else Some res.

Definition _executeValidators (control : C) (validators : list ValidatorFn)
  : list (option ValidationErrors) :=
  map (fun v => v control) validators.

(** [Validators.compose]: [None] for the [null] it returns. *)
Definition compose (validators : option (list (option ValidatorFn))) : option ValidatorFn :=
  match validators with
  | None => None
  | Some vs =>
      let presentValidators := omap (fun o => o) (filter isPresent vs) in
      match presentValidators with
      | [] => None
      | _ => Some (fun control => _mergeErrors (_executeValidators control presentValidators))
      end
  end.

Definition required : ValidatorFn := fun control =>
  if isEmptyInputValue (control_value control) then Some [("required", JBool true)] else None.

(** [const length = control.value ? control.value.length : 0]; a
    comparison with a non-number [length] is false. *)
Definition minLength (minLength : Z) : ValidatorFn := fun control =>
  let v := control_value control in
  if isEmptyInputValue v then None else
  let length := if truthy v then js_get v "length" else Some (JNum 0) in
  match length with
  | Some (JNum l) =>
      if Z.ltb l minLength
      then Some [("minLength", JObj [("requiredLength", JNum minLength);
                                   ("actualLength", JNum l)])]
      else None
  | _ => None
  end.

(** [maxLength]: [const length = control.value ? control.value.length : 0;
    return length > maxLength ? {...} : null]; as for [minLength], a
    comparison with a non-number [length] is false. *)
Definition maxLength (maxLength : Z) : ValidatorFn := fun control =>
  let v := control_value control in
  let length := if truthy v then js_get v "length" else Some (JNum 0) in
  match length with
  | Some (JNum l) =>
      if Z.ltb maxLength l
      then Some [("maxLength", JObj [("requiredLength", JNum maxLength);
                                   ("actualLength", JNum l)])]
      else None
  | _ => None
  end.

(** The spec's reading of composition, key by key: the value of [k] in
    the merged map is the one given by the last result that has [k]
    (within one result, as in an object literal, the last binding). *)
Fixpoint obj_get_last {A} (l : list (string * A)) (k : string) : option A :=
  match l with
  | [] => None
  | (k', v) :: l' =>
      match obj_get_last l' k with
      | Some w => Some w
      | None => if String.eqb k k' then Some v else None
      end
  end.

Definition later_wins (results : list (option ValidationErrors)) (k : string) : option jsval :=
  fold_left (fun acc r =>
               match r with
               | Some e => match obj_get_last e k with Some v => Some v | None => acc end
               | None => acc
               end) results None.
End Validators.
End Validators.

(* ------------------------------------------------------------------ *)
(** ** AbstractControl, FormGroup and FormArray: status and value *)

Section Model.
(** The synchronous validator functions, by reference: a validator gets
    the control (here: the heap and the control's id). *)
Variable validatorFns : nat -> gmap cid AbstractControl -> cid -> option ValidationErrors.

(** [get updateOn()]: [this._updateOn ? this._updateOn
    : this.parent ? this.parent.updateOn : "change"] *)
Fixpoint get_updateOn (fuel : nat) (id : cid) : M FormHooks :=
  match fuel with
  | 0 => throw OutOfFuel
  | S f =>
      let* c := get_control id in
      match _updateOn c with
      | Some h => ret h
      | None => match _parent c with Some p => get_updateOn f p | None => ret change end
      end
  end.

Definition setInitialStatus (id : cid) : M unit :=
  modify id (fun c => set_status (if disabled c then DISABLED else VALID) c).

(** [FormGroup._reduceValue]: [acc[name] = control.value] for every
    child with [control.enabled || this.disabled]. *)
Fixpoint _reduceValue (this_disabled : bool) (cs : list (string * cid))
  (acc : list (string * jsval)) : M (list (string * jsval)) :=
  match cs with
  | [] => ret acc
  | (name, ch) :: cs' =>
      let* c := get_control ch in
      _reduceValue this_disabled cs'
        (if enabled c || this_disabled then obj_set acc name (value c) else acc)
  end.

(** [FormArray]: [controls.filter(c => c.enabled || this.disabled).map(c => c.value)] *)
Fixpoint _arrayValue (this_disabled : bool) (cs : list cid) : M (list jsval) :=
  match cs with
  | [] => ret []
  | ch :: cs' =>
      let* c := get_control ch in
      let* rest := _arrayValue this_disabled cs' in
      ret (if enabled c || this_disabled then value c :: rest else rest)
  end.

(** Modelled from the spec: [FormControl._updateValue], absent from the
    FormControl sources although [AbstractControl] declares it abstract;
    a leaf holds its value, so recomputing it from itself leaves it. *)
Definition FormControl__updateValue (id : cid) : M unit := ret tt.

Definition _updateValue (id : cid) : M unit :=
  let* c := get_control id in
  match kind c with
  | KControl => FormControl__updateValue id
  | KGroup cs => let* v := _reduceValue (disabled c) cs [] in modify id (set_value (JObj v))
  | KArray cs => let* v := _arrayValue (disabled c) cs in modify id (set_value (JArr v))
  end.

(** The [for ... if (control.enabled) return false] loop. *)
Fixpoint _someEnabled (cs : list cid) : M bool :=
  match cs with
  | [] => ret false
  | ch :: cs' => let* c := get_control ch in if enabled c then ret true else _someEnabled cs'
  end.

(** [_allControlsDisabled]: [FormControl] returns [this.disabled]; the
    composites return [false] on an enabled child, else
    [controls.length > 0 || this.disabled]. *)
Definition _allControlsDisabled (id : cid) : M bool :=
  let* c := get_control id in
  match kind c with
  | KControl => ret (disabled c)
  | KGroup cs =>
      let* e := _someEnabled (map snd cs) in
      ret (if e then false else negb (Nat.eqb (length cs) 0) || disabled c)
  | KArray cs =>
      let* e := _someEnabled cs in
      ret (if e then false else negb (Nat.eqb (length cs) 0) || disabled c)
  end.

(** [FormGroup.contains(name)]: the child exists and is enabled. *)
Definition contains (controls : list (string * cid)) (name : string) : M bool :=
  match obj_get controls name with
  | Some ch => let* c := get_control ch in ret (enabled c)
  | None => ret false
  end.

(** [FormGroup._anyControls]: [res = res || (this.contains(name) && condition(control))]. *)
Fixpoint _groupAny (controls : list (string * cid)) (cond : AbstractControl -> bool)
  (cs : list (string * cid)) (res : bool) : M bool :=
  match cs with
  | [] => ret res
  | (name, ch) :: cs' =>
      let* r := (if res then ret true else
             let* b := contains controls name in
             if b then (let* c := get_control ch in ret (cond c)) else ret false) in
      _groupAny controls cond cs' r
  end.

(** [FormArray._anyControls]: [controls.some(c => c.enabled && condition(c))]. *)
Fixpoint _arrayAny (cond : AbstractControl -> bool) (cs : list cid) : M bool :=
  match cs with
  | [] => ret false
  | ch :: cs' =>
      let* c := get_control ch in
      if enabled c && cond c then ret true else _arrayAny cond cs'
  end.

Definition _anyControls (id : cid) (cond : AbstractControl -> bool) : M bool :=
  let* c := get_control id in
  match kind c with
  | KControl => ret false
  | KGroup cs => _groupAny cs cond cs false
  | KArray cs => _arrayAny cond cs
  end.

Definition _anyControlsHaveStatus (id : cid) (s : FieldStatus) : M bool :=
  _anyControls id (fun c => FieldStatus_eqb (status c) s).

Definition _calculateStatus (id : cid) : M FieldStatus :=
  let* d := _allControlsDisabled id in
  if d then ret DISABLED else
  let* c := get_control id in
  if errors c then ret INVALID else
  let* p := _anyControlsHaveStatus id PENDING in
  if p then ret PENDING else
  let* i := _anyControlsHaveStatus id INVALID in
  if i then ret INVALID else ret VALID.

Definition _runValidator (id : cid) : M (option ValidationErrors) :=
  let* c := get_control id in
  match validator c with
  | Some v => let* st := get_store in ret (validatorFns v st id)
  | None => ret None
  end.

(** The subscription field is always set (to a closed subscription at
    construction), so [unsubscribe] always runs. *)
Definition _cancelExistingSubscription (id : cid) : M unit :=
  modify id (set_subscription None).

(** [_runAsyncValidator(emitEvent)]: status [PENDING], then subscribe
    to the validator's result with an observer that has an [error]
    callback only. *)
Definition _runAsyncValidator (id : cid) (emitEvent : bool) : M unit :=
  let* c := get_control id in
  match asyncValidator c with
  | Some _ => modify id (set_status PENDING) ;; modify id (set_subscription (Some emitEvent))
  | None => ret tt
  end.

(** [updateValueAndValidity(options?)] *)
Fixpoint updateValueAndValidity (fuel : nat) (id : cid) (options : option UpdateOptions)
  : M unit :=
  match fuel with
  | 0 => throw OutOfFuel
  | S f =>
      setInitialStatus id ;;
      _updateValue id ;;
      let* c := get_control id in
      let* shouldValidate := (if enabled c
                        then (let* u := get_updateOn f id in
                              ret (negb (FormHooks_eqb u submit) || submitted c))
                        else ret false) in
      (if shouldValidate then
         _cancelExistingSubscription id ;;
         let* e := _runValidator id in
         modify id (set_errors e) ;;
         let* st := _calculateStatus id in
         modify id (set_status st) ;;
         (if FieldStatus_eqb st VALID || FieldStatus_eqb st PENDING
          then _runAsyncValidator id true else ret tt)
       else ret tt) ;;
      let* c := get_control id in
      (match options with
       | Some o =>
           if not_false (emitEvent o)
           then emit (ValueChanged id (value c)) ;; emit (StatusChanged id (status c)) ;;
                emit (StateChanged id)
           else ret tt
       | None => ret tt
       end) ;;
      match _parent c, options with
      | Some p, Some o => if opt_truthy (onlySelf o) then ret tt
                          else updateValueAndValidity f p options
      | _, _ => ret tt
      end
  end.

(** [_updateControlsErrors(emitEvent)]: recompute the status, notify,
    and do the same on the parent. *)
Fixpoint _updateControlsErrors (fuel : nat) (id : cid) (emitEvent : bool) : M unit :=
  match fuel with
  | 0 => throw OutOfFuel
  | S f =>
      let* st := _calculateStatus id in
      modify id (set_status st) ;;
      (if emitEvent then emit (StatusChanged id st) ;; emit (StateChanged id) else ret tt) ;;
      let* c := get_control id in
      match _parent c with
      | Some p => _updateControlsErrors f p emitEvent
      | None => ret tt
      end
  end.

(** [setErrors(errors, opts = {})] *)
Definition setErrors (fuel : nat) (id : cid) (errs : option ValidationErrors)
  (opts : option UpdateOptions) : M unit :=
  let opts := default no_opts opts in
  modify id (set_errors errs) ;;
  _updateControlsErrors fuel id (not_false (emitEvent opts)).

(** How the task started by [_runAsyncValidator] settles. *)
Inductive AsyncSettlement :=
| Resolved (result : option ValidationErrors)
| Rejected (err : option ValidationErrors).

(** The settlement reaching the observer
    [{ error: (errors) => this.setErrors(errors, { emitEvent }) }]: a
    resolved task delivers [next] and [complete], for which the observer
    has no callback; a rejected one delivers [error].  The subscription
    is closed afterwards; a cancelled one receives nothing. *)
Definition asyncSettle (fuel : nat) (id : cid) (o : AsyncSettlement) : M unit :=
  let* c := get_control id in
  match _asyncValidationSubscription c with
  | None => ret tt
  | Some emitEv =>
      modify id (set_subscription None) ;;
      match o with
      | Resolved _ => ret tt
      | Rejected e => setErrors fuel id e (Some (mkOpts None (Some emitEv)))
      end
  end.

(** [_updatePristine(opts?)] *)
Fixpoint _updatePristine (fuel : nat) (id : cid) (opts : option UpdateOptions) : M unit :=
  match fuel with
  | 0 => throw OutOfFuel
  | S f =>
      let* d := _anyControls id dirty in
      modify id (set_pristine (negb d)) ;;
      let* c := get_control id in
      match _parent c, opts with
      | Some p, Some o => if opt_truthy (onlySelf o) then ret tt else _updatePristine f p opts
      | _, _ => ret tt
      end
  end.

(** [_updateTouched(opts?)] *)
Fixpoint _updateTouched (fuel : nat) (id : cid) (opts : option UpdateOptions) : M unit :=
  match fuel with
  | 0 => throw OutOfFuel
  | S f =>
      let* t := _anyControls id touched in
      modify id (set_touched t) ;;
      let* c := get_control id in
      match _parent c, opts with
      | Some p, Some o => if opt_truthy (onlySelf o) then ret tt else _updateTouched f p opts
      | _, _ => ret tt
      end
  end.

(** [_updateAncestors(onlySelf)]: the parent's calls take no options. *)
Definition _updateAncestors (fuel : nat) (id : cid) (onlySelf : bool) : M unit :=
  let* c := get_control id in
  match _parent c with
  | Some p =>
      if onlySelf then ret tt else
      updateValueAndValidity fuel p None ;;
      _updatePristine fuel p None ;;
      _updateTouched fuel p None
  | None => ret tt
  end.

(** [{ onlySelf: true }], as passed to the children. *)
Definition child_opts : option UpdateOptions := Some (mkOpts (Some true) None).

(** [disable(opts)]: [opts] is read without a default. *)
Fixpoint disable (fuel : nat) (id : cid) (opts : option UpdateOptions) : M unit :=
  match fuel with
  | 0 => throw OutOfFuel
  | S f =>
      modify id (set_status DISABLED) ;;
      modify id (set_errors None) ;;
      let* c := get_control id in
      for_each (children_of c) (fun ch => disable f ch child_opts) ;;
      _updateValue id ;;
      let* o := deref_opts opts in
      let* c := get_control id in
      (if not_false (emitEvent o)
       then emit (ValueChanged id (value c)) ;; emit (StatusChanged id (status c)) ;;
            emit (StateChanged id)
       else ret tt) ;;
      _updateAncestors f id (opt_truthy (onlySelf o))
  end.

(** [enable(opts)]: [opts] is read without a default. *)
Fixpoint enable (fuel : nat) (id : cid) (opts : option UpdateOptions) : M unit :=
  match fuel with
  | 0 => throw OutOfFuel
  | S f =>
      modify id (set_status VALID) ;;
      let* c := get_control id in
      for_each (children_of c) (fun ch => enable f ch child_opts) ;;
      let* o := deref_opts opts in
      updateValueAndValidity f id (Some (mkOpts (Some true) (emitEvent o))) ;;
      _updateAncestors f id (opt_truthy (onlySelf o))
  end.

(** [markAsDirty(opts?)] *)
Fixpoint markAsDirty (fuel : nat) (id : cid) (opts : option UpdateOptions) : M unit :=
  match fuel with
  | 0 => throw OutOfFuel
  | S f =>
      modify id (set_pristine false) ;;
      (match opts with
       | Some o => if opt_truthy (emitEvent o) then emit (StateChanged id) else ret tt
       | None => ret tt
       end) ;;
      let* c := get_control id in
      match _parent c, opts with
      | Some p, Some o => if opt_truthy (onlySelf o) then ret tt else markAsDirty f p opts
      | _, _ => ret tt
      end
  end.

(** [markAsPristine(opts?)] *)
Fixpoint markAsPristine (fuel : nat) (id : cid) (opts : option UpdateOptions) : M unit :=
  match fuel with
  | 0 => throw OutOfFuel
  | S f =>
      modify id (set_pristine true) ;;
      modify id (set_pendingDirty false) ;;
      (match opts with
       | Some o => if opt_truthy (emitEvent o) then emit (StateChanged id) else ret tt
       | None => ret tt
       end) ;;
      let* c := get_control id in
      for_each (children_of c) (fun ch => markAsPristine f ch child_opts) ;;
      match _parent c, opts with
      | Some p, Some o => if opt_truthy (onlySelf o) then ret tt else _updatePristine f p opts
      | _, _ => ret tt
      end
  end.

(** [markAsUntouched(opts)]: [opts] is read without a default. *)
Fixpoint markAsUntouched (fuel : nat) (id : cid) (opts : option UpdateOptions) : M unit :=
  match fuel with
  | 0 => throw OutOfFuel
  | S f =>
      modify id (set_touched false) ;;
      modify id (set_pendingTouched false) ;;
      let* c := get_control id in
      for_each (children_of c) (fun ch => markAsUntouched f ch child_opts) ;;
      (match _parent c with
       | Some p =>
           let* o := deref_opts opts in
           if opt_truthy (onlySelf o) then ret tt else _updateTouched f p opts
       | None => ret tt
       end) ;;
      let* o := deref_opts opts in
      if opt_truthy (emitEvent o) then emit (StateChanged id) else ret tt
  end.

(* ---------------------------------------------------------------- *)
(** *** FormControl *)

(** [FormControl.setValue(value, options = {})] *)
Definition FormControl_setValue (fuel : nat) (id : cid) (v : jsval)
  (options : option UpdateOptions) : M unit :=
  let options := default no_opts options in
  modify id (set_pendingValue v) ;;
  modify id (set_value v) ;;
  updateValueAndValidity fuel id (Some options).

(** [_isBoxedValue]: an object with exactly the keys [value] and [disabled]. *)
Definition _isBoxedValue (formState : jsval) : bool :=
  match formState with
  | JObj l => Nat.eqb (length l) 2 && bool_decide (is_Some (obj_get l "value"))
              && bool_decide (is_Some (obj_get l "disabled"))
  | _ => false
  end.

Definition _applyFormState (fuel : nat) (id : cid) (formState : jsval) : M unit :=
  match formState with
  | JObj l =>
      if _isBoxedValue formState then
        let v := default JUndefined (obj_get l "value") in
        modify id (set_pendingValue v) ;;
        modify id (set_value v) ;;
        (if truthy (default JUndefined (obj_get l "disabled"))
         then disable fuel id (Some (mkOpts (Some true) (Some false)))
         else enable fuel id (Some (mkOpts (Some true) (Some false))))
      else modify id (set_pendingValue formState) ;; modify id (set_value formState)
  | _ => modify id (set_pendingValue formState) ;; modify id (set_value formState)
  end.

(** [FormControl.reset(formState = null, options = {})]; an omitted
    argument is [JUndefined] / [None]. *)
Definition reset (fuel : nat) (id : cid) (formState : jsval)
  (options : option UpdateOptions) : M unit :=
  let formState := match formState with JUndefined => JNull | v => v end in
  let options := default no_opts options in
  _applyFormState fuel id formState ;;
  markAsPristine fuel id (Some options) ;;
  markAsUntouched fuel id (Some options) ;;
  let* c := get_control id in
  FormControl_setValue fuel id (value c) (Some options) ;;
  modify id (set_pendingChange false).

(* ---------------------------------------------------------------- *)
(** *** FormGroup and FormArray: strict setValue *)

Definition js_get_m (v : jsval) (k : string) : M jsval :=
  match js_get v k with Some r => ret r | None => throw (TypeError msg_undefined) end.

Definition js_keys_m (v : jsval) : M (list string) :=
  match js_keys v with
  | Some ks => ret ks
  | None => throw (TypeError "Cannot convert undefined or null to object")
  end.

Definition msg_must_supply (name : string) : string :=
  "Must supply a value for form control with name: '" +:+ name +:+ "'.".
Definition msg_no_controls : string :=
  "There are no form controls registered with this group yet.".
Definition msg_cannot_find (name : string) : string :=
  "Cannot find form control with name: " +:+ name +:+ ".".
Definition msg_array_must_supply (i : nat) : string :=
  "Must supply a value for form control at index: " +:+ pretty i +:+ ".".
Definition msg_array_no_controls : string :=
  "There are no form controls registered with this array yet.".
Definition msg_array_cannot_find (i : nat) : string :=
  "Cannot find form control at index " +:+ pretty i.

Definition group_controls (id : cid) : M (list (string * cid)) :=
  let* c := get_control id in
  match kind c with
  | KGroup cs => ret cs
  | _ => throw (TypeError msg_undefined)
  end.

Definition array_controls (id : cid) : M (list cid) :=
  let* c := get_control id in
  match kind c with
  | KArray cs => ret cs
  | _ => throw (TypeError msg_undefined)
  end.

(** [FormGroup._checkAllValuesPresent(value)] *)
Definition _checkAllValuesPresent (id : cid) (v : jsval) : M unit :=
  let* cs := group_controls id in
  for_each cs (fun '(name, _) =>
    let* x := js_get_m v name in
    match x with
    | JUndefined => throw (Error (msg_must_supply name))
    | _ => ret tt
    end).

(** [FormGroup._throwIfControlMissing(name)]; the keys used are not
    names of [Object.prototype] properties. *)
Definition _throwIfControlMissing (id : cid) (name : string) : M unit :=
  let* cs := group_controls id in
  if Nat.eqb (length cs) 0 then throw (Error msg_no_controls) else
  match obj_get cs name with
  | Some _ => ret tt
  | None => throw (Error (msg_cannot_find name))
  end.

(** [FormArray._checkAllValuesPresent(value)] *)
Definition _checkAllValuesPresentArray (id : cid) (v : jsval) : M unit :=
  let* cs := array_controls id in
  for_each (seq 0 (length cs)) (fun i =>
    let* x := js_get_m v (pretty i) in
    match x with
    | JUndefined => throw (Error (msg_array_must_supply i))
    | _ => ret tt
    end).

(** [FormArray._throwIfControlMissing(index)] *)
Definition _throwIfControlMissingArray (id : cid) (i : nat) : M cid :=
  let* cs := array_controls id in
  if Nat.eqb (length cs) 0 then throw (Error msg_array_no_controls) else
  match cs !! i with
  | Some ch => ret ch
  | None => throw (Error (msg_array_cannot_find i))
  end.

(** [setValue], dispatched on the kind of control. *)
Fixpoint setValue (fuel : nat) (id : cid) (v : jsval) (options : option UpdateOptions)
  : M unit :=
  match fuel with
  | 0 => throw OutOfFuel
  | S f =>
      let* c := get_control id in
      match kind c with
      | KControl => FormControl_setValue f id v options
      | KGroup _ =>
          (* FormGroup.setValue(value, options = {}) *)
          let options := default no_opts options in
          _checkAllValuesPresent id v ;;
          let* ks := js_keys_m v in
          for_each ks (fun name =>
            _throwIfControlMissing id name ;;
            let* cs := group_controls id in
            match obj_get cs name with
            | Some ch =>
                let* x := js_get_m v name in
                setValue f ch x (Some (mkOpts (Some true) (emitEvent options)))
            | None => throw (TypeError msg_undefined)
            end) ;;
          updateValueAndValidity f id (Some options)
      | KArray _ =>
          (* FormArray.setValue(value, options?) *)
          _checkAllValuesPresentArray id v ;;
          match v with
          | JArr l =>
              for_each (zip (seq 0 (length l)) l) (fun '(i, x) =>
                let* ch := _throwIfControlMissingArray id i in
                setValue f ch x
                  (Some (mkOpts (Some true)
                           (Some (match options with
                                  | Some o => opt_truthy (emitEvent o)
                                  | None => false
                                  end)))))
          | _ => throw (TypeError "value.forEach is not a function")
          end ;;
          updateValueAndValidity f id options
      end
  end.

(* ---------------------------------------------------------------- *)
(** *** FormGroup: registering children *)

(** [registerControl(name, control)] *)
Definition registerControl (id : cid) (name : string) (control : cid) : M cid :=
  let* g := get_control id in
  match kind g with
  | KGroup cs =>
      match obj_get cs name with
      | Some existing => ret existing
      | None =>
          modify id (set_kind (KGroup (obj_set cs name control))) ;;
          modify control (set_parent (Some id)) ;;
          modify control (set_onCollectionChange (_onCollectionChange g)) ;;
          ret control
      end
  | _ => throw (TypeError "registerControl is not a function")
  end.

(** [addControl(name, control)]; the collection-change callbacks of the
    code are all empty functions. *)
Definition addControl (fuel : nat) (id : cid) (name : string) (control : cid) : M unit :=
  registerControl id name control ;;
  updateValueAndValidity fuel id None.

(* ---------------------------------------------------------------- *)
(** *** Constructors *)

(** The [validatorOrOpts] argument: nothing, one validator function, or
    an options object [{validators?, asyncValidators?, updateOn?}].
    An array of validators is composed by [Validators.compose] into one
    function, which the environment holds under its own reference. *)
Inductive ValidatorOrOpts :=
| NoValidator
| ValidatorArg (v : nat)
| OptionsArg (validators : option nat) (asyncValidators : option nat)
    (updateOn : option FormHooks).

Definition coerceToValidator (vo : ValidatorOrOpts) : option nat :=
  match vo with
  | NoValidator => None
  | ValidatorArg v => Some v
  | OptionsArg vs _ _ => vs
  end.

Definition coerceToAsyncValidator (asyncValidator : option nat) (vo : ValidatorOrOpts)
  : option nat :=
  match vo with
  | OptionsArg _ a _ => a
  | _ => asyncValidator
  end.

(** [_setUpdateStrategy(opts)] *)
Definition _setUpdateStrategy (id : cid) (vo : ValidatorOrOpts) : M unit :=
  match vo with
  | OptionsArg _ _ (Some h) => modify id (set_updateOn (Some h))
  | _ => ret tt
  end.

(** The field initialisers of [AbstractControl]: in particular
    [_updateOn = "change"] and [pristine = true].  The subscription the
    constructor opens on a fresh [Subject] never delivers anything, so
    it is modelled as no validation in flight. *)
Definition initial_control (k : ControlKind) (v av : option nat) (pendingChange : bool)
  : AbstractControl :=
  mkControl k JUndefined JNull VALID None false false true pendingChange false false
    None (Some change) v av None cb_empty.

Definition alloc (c : AbstractControl) : M cid :=
  fun s => Ok (mkState (<[fresh s := c]> (store s)) (log s) (S (fresh s))) (fresh s).

(** [new FormControl(formState, validatorOrOpts, asyncValidator)] *)
Definition new_FormControl (fuel : nat) (formState : jsval) (vo : ValidatorOrOpts)
  (asyncValidator : option nat) : M cid :=
  let* id := alloc (initial_control KControl (coerceToValidator vo)
                      (coerceToAsyncValidator asyncValidator vo) true) in
  _applyFormState fuel id formState ;;
  _setUpdateStrategy id vo ;;
  updateValueAndValidity fuel id (Some (mkOpts (Some true) (Some false))) ;;
  ret id.

(** [new FormGroup(controls, validatorOrOpts, asyncValidator)] *)
Definition new_FormGroup (fuel : nat) (controls : list (string * cid)) (vo : ValidatorOrOpts)
  (asyncValidator : option nat) : M cid :=
  let* id := alloc (initial_control (KGroup controls) (coerceToValidator vo)
                      (coerceToAsyncValidator asyncValidator vo) false) in
  modify id (set_onCollectionChange (cb_of id)) ;;
  _setUpdateStrategy id vo ;;
  for_each controls (fun '(_, ch) =>
    modify ch (set_parent (Some id)) ;; modify ch (set_onCollectionChange (cb_of id))) ;;
  updateValueAndValidity fuel id (Some (mkOpts (Some true) (Some false))) ;;
  ret id.
End Model.

(* ---------------------------------------------------------------- *)
(** *** AbstractControl: the other flags, the root and the validators *)

Section ModelMore.
Variable validatorFns : nat -> gmap cid AbstractControl -> cid -> option ValidationErrors.

(** [markAsTouched(opts?)] *)
Fixpoint markAsTouched (fuel : nat) (id : cid) (opts : option UpdateOptions) : M unit :=
  match fuel with
  | 0 => throw OutOfFuel
  | S f =>
      modify id (set_touched true) ;;
      match opts with
      | Some o =>
          let* c := get_control id in
          (match _parent c with
           | Some p => if opt_truthy (onlySelf o) then ret tt else markAsTouched f p opts
           | None => ret tt
           end) ;;
          if opt_truthy (emitEvent o) then emit (StateChanged id) else ret tt
      | None => ret tt
      end
  end.

(** [markAsSubmitted(opts?)]: the children are called without options. *)
Fixpoint markAsSubmitted (fuel : nat) (id : cid) (opts : option UpdateOptions) : M unit :=
  match fuel with
  | 0 => throw OutOfFuel
  | S f =>
      modify id (set_submitted true) ;;
      let* c := get_control id in
      for_each (children_of c) (fun ch => markAsSubmitted f ch None) ;;
      match opts with
      | Some o => if not_false (emitEvent o) then emit (StateChanged id) else ret tt
      | None => ret tt
      end
  end.

(** [markAsUnsubmitted(opts?)]: the children get [{ onlySelf: true }]. *)
Fixpoint markAsUnsubmitted (fuel : nat) (id : cid) (opts : option UpdateOptions) : M unit :=
  match fuel with
  | 0 => throw OutOfFuel
  | S f =>
      modify id (set_submitted false) ;;
      let* c := get_control id in
      for_each (children_of c) (fun ch => markAsUnsubmitted f ch child_opts) ;;
      match opts with
      | Some o => if not_false (emitEvent o) then emit (StateChanged id) else ret tt
      | None => ret tt
      end
  end.

(** [markAsPending(opts)]: [opts] is read without a default, and only
    when there is a parent. *)
Fixpoint markAsPending (fuel : nat) (id : cid) (opts : option UpdateOptions) : M unit :=
  match fuel with
  | 0 => throw OutOfFuel
  | S f =>
      modify id (set_status PENDING) ;;
      let* c := get_control id in
      match _parent c with
      | Some p =>
          let* o := deref_opts opts in
          if opt_truthy (onlySelf o) then ret tt else markAsPending f p opts
      | None => ret tt
      end
  end.

(** [get root()]: [let x = this; while (x._parent) x = x._parent; return x]. *)
Fixpoint root (fuel : nat) (id : cid) : M cid :=
  match fuel with
  | 0 => throw OutOfFuel
  | S f =>
      let* c := get_control id in
      match _parent c with
      | Some p => root f p
      | None => ret id
      end
  end.

(** [setValidators(newValidator)] *)
Definition setValidators (id : cid) (newValidator : ValidatorOrOpts) : M unit :=
  modify id (set_validator (coerceToValidator newValidator)).

(** [setAsyncValidators(newValidator)]: [coerceToAsyncValidator] is
    called with one argument, so its [validatorOrOpts] parameter takes
    its default [{}], an options object. *)
Definition setAsyncValidators (id : cid) (newValidator : option nat) : M unit :=
  modify id (set_asyncValidator
               (coerceToAsyncValidator newValidator (OptionsArg None None None))).

(* ---------------------------------------------------------------- *)
(** *** Paths: [_find] (controlUtils.ts), [get], [getError], [hasError] *)

(** An element of a path: [string | number]. *)
Inductive PathSeg := PName (name : string) | PIndex (n : Z).

(** The [path] argument: [null] or [undefined], a string, or an array. *)
Inductive Path := PathNull | PathStr (s : string) | PathArr (segs : list PathSeg).

(** [s.split(d)] for a one-character delimiter. *)
Fixpoint split_on (d : ascii) (s : string) : list string :=
  match s with
  | EmptyString => [EmptyString]
  | String a s' =>
      let rest := split_on d s' in
      if Ascii.eqb a d then EmptyString :: rest
      else match rest with
           | w :: ws => String a w :: ws
           | [] => [String a EmptyString]
           end
  end.

(** A segment used as a property key: [String(n)] for a number. *)
Definition seg_key (k : PathSeg) : string :=
  match k with PName s => s | PIndex n => pretty n end.

(** [controls[k]] on the array of a [FormArray]: a non-negative number,
    or its canonical string, selects an element. *)
Definition array_at (cs : list cid) (k : PathSeg) : option cid :=
  match k with
  | PIndex n => if Z.leb 0 n then cs !! Z.to_nat n else None
  | PName k =>
      head (omap (fun i => if String.eqb (pretty i) k then cs !! i else None)
                 (seq 0 (length cs)))
  end.

(** One step of the [reduce] in [_find]: [v.controls[name] || null] on a
    [FormGroup], [v.at(name) || null] on a [FormArray], else [null].
    Names of properties that every object or array inherits (such as
    [toString], or [length] on an array) are not used as path
    elements here. *)
Definition _find_step (v : option cid) (name : PathSeg) : M (option cid) :=
  match v with
  | None => ret None
  | Some id =>
      let* c := get_control id in
      match kind c with
      | KGroup cs => ret (obj_get cs (seg_key name))
      | KArray cs => ret (array_at cs name)
      | KControl => ret None
      end
  end.

Fixpoint _find_reduce (segs : list PathSeg) (v : option cid) : M (option cid) :=
  match segs with
  | [] => ret v
  | name :: segs' => let* v' := _find_step v name in _find_reduce segs' v'
  end.

(** [if (path instanceof Array && path.length === 0) return null;
    return path.reduce(..., control)] *)
Definition _find_segs (id : cid) (segs : list PathSeg) : M (option cid) :=
  match segs with
  | [] => ret None
  | _ => _find_reduce segs (Some id)
  end.

(** [_find(control, path, delimiter)] *)
Definition _find (id : cid) (path : Path) (delimiter : ascii) : M (option cid) :=
  match path with
  | PathNull => ret None
  | PathStr s => _find_segs id (map PName (split_on delimiter s))
  | PathArr segs => _find_segs id segs
  end.

(** [get(path)] *)
Definition AbstractControl_get (id : cid) (path : Path) : M (option cid) :=
  _find id path ".".

(** JavaScript truthiness of a path. *)
Definition path_truthy (p : Path) : bool :=
  match p with
  | PathNull => false
  | PathStr s => negb (String.eqb s "")
  | PathArr _ => true
  end.

(** [getError(errorCode, path)]: [control = path ? this.get(path) : this;
    return control && control.errors ? control.errors[errorCode] : null]. *)
Definition getError (id : cid) (errorCode : string) (path : Path) : M jsval :=
  let* control := if path_truthy path then AbstractControl_get id path else ret (Some id) in
  match control with
  | None => ret JNull
  | Some ch =>
      let* c := get_control ch in
      match errors c with
      | Some e => ret (default JUndefined (obj_get e errorCode))
      | None => ret JNull
      end
  end.

(** [hasError(errorCode, path)]: [!!this.getError(errorCode, path)]. *)
Definition hasError (id : cid) (errorCode : string) (path : Path) : M bool :=
  let* e := getError id errorCode path in ret (truthy e).

(* ---------------------------------------------------------------- *)
(** *** FormGroup: removing and replacing children, [patchValue] *)

(** [if (this.controls[name]) this.controls[name]._registerOnCollectionChange(() => {})] *)
Definition _unregisterChild (ch : option cid) : M unit :=
  match ch with
  | Some ch => modify ch (set_onCollectionChange cb_empty)
  | None => ret tt
  end.

(** [removeControl(name)]; the group's own [_onCollectionChange] is an
    empty function. *)
Definition removeControl (fuel : nat) (id : cid) (name : string) : M unit :=
  let* cs := group_controls id in
  _unregisterChild (obj_get cs name) ;;
  modify id (set_kind (KGroup (obj_delete cs name))) ;;
  updateValueAndValidity validatorFns fuel id None.

(** [FormGroup.setControl(name, control)]; [None] is a falsy [control]. *)
Definition FormGroup_setControl (fuel : nat) (id : cid) (name : string) (control : option cid)
  : M unit :=
  let* cs := group_controls id in
  _unregisterChild (obj_get cs name) ;;
  modify id (set_kind (KGroup (obj_delete cs name))) ;;
  (match control with
   | Some ch => registerControl id name ch ;; ret tt
   | None => ret tt
   end) ;;
  updateValueAndValidity validatorFns fuel id None.

(** [patchValue], dispatched on the kind of control. *)
Fixpoint patchValue (fuel : nat) (id : cid) (v : jsval) (options : option UpdateOptions)
  : M unit :=
  match fuel with
  | 0 => throw OutOfFuel
  | S f =>
      let* c := get_control id in
      match kind c with
      | KControl =>
          (* FormControl.patchValue(value, options = {}): this.setValue(value, options) *)
          FormControl_setValue validatorFns f id v (Some (default no_opts options))
      | KGroup _ =>
          (* FormGroup.patchValue(value, options = {}) *)
          let options := default no_opts options in
          let* ks := js_keys_m v in
          for_each ks (fun name =>
            let* cs := group_controls id in
            match obj_get cs name with
            | Some ch =>
                let* x := js_get_m v name in
                patchValue f ch x (Some (mkOpts (Some true) (emitEvent options)))
            | None => ret tt
            end) ;;
          updateValueAndValidity validatorFns f id (Some options)
      | KArray _ =>
          (* FormArray.patchValue(value, options?) *)
          match v with
          | JArr l =>
              for_each (zip (seq 0 (length l)) l) (fun '(i, x) =>
                let* cs := array_controls id in
                match cs !! i with
                | Some ch =>
                    patchValue f ch x
                      (Some (mkOpts (Some true)
                               (Some (match options with
                                      | Some o => opt_truthy (emitEvent o)
                                      | None => false
                                      end))))
                | None => ret tt
                end)
          | JUndefined | JNull => throw (TypeError msg_undefined)
          | _ => throw (TypeError "value.forEach is not a function")
          end ;;
          updateValueAndValidity validatorFns f id options
      end
  end.

(* ---------------------------------------------------------------- *)
(** *** FormArray: [at], [push], [insert], [removeAt], [setControl] *)

(** The start index of [Array.prototype.splice] for an integer [start]:
    counted from the end when negative, clamped to [0 .. len]. *)
Definition splice_start (len : nat) (start : Z) : nat :=
  Z.to_nat (if Z.ltb start 0 then Z.max (Z.of_nat len + start) 0
            else Z.min start (Z.of_nat len)).

(** [l.splice(start, 0, x)] *)
Definition splice_insert {A} (l : list A) (start : Z) (x : A) : list A :=
  let k := splice_start (length l) start in take k l ++ x :: drop k l.

(** [l.splice(start, 1)] *)
Definition splice_remove {A} (l : list A) (start : Z) : list A :=
  let k := splice_start (length l) start in take k l ++ drop (S k) l.

(** [at(index)]: [this.controls[index]]. *)
Definition FormArray_at (id : cid) (index : Z) : M (option cid) :=
  let* cs := array_controls id in ret (array_at cs (PIndex index)).

(** [FormArray._registerControl(control)] *)
Definition FormArray__registerControl (id : cid) (control : cid) : M unit :=
  modify control (set_parent (Some id)) ;;
  let* a := get_control id in
  modify control (set_onCollectionChange (_onCollectionChange a)).

(** [push(control)]; the array's [_onCollectionChange] does nothing. *)
Definition FormArray_push (fuel : nat) (id : cid) (control : cid) : M unit :=
  let* cs := array_controls id in
  modify id (set_kind (KArray (cs ++ [control]))) ;;
  FormArray__registerControl id control ;;
  updateValueAndValidity validatorFns fuel id None.

(** [insert(index, control)] *)
Definition FormArray_insert (fuel : nat) (id : cid) (index : Z) (control : cid) : M unit :=
  let* cs := array_controls id in
  modify id (set_kind (KArray (splice_insert cs index control))) ;;
  FormArray__registerControl id control ;;
  updateValueAndValidity validatorFns fuel id None.

(** [removeAt(index)] *)
Definition FormArray_removeAt (fuel : nat) (id : cid) (index : Z) : M unit :=
  let* cs := array_controls id in
  _unregisterChild (array_at cs (PIndex index)) ;;
  modify id (set_kind (KArray (splice_remove cs index))) ;;
  updateValueAndValidity validatorFns fuel id None.

(** [FormArray.setControl(index, control)]; [None] is a falsy [control]. *)
Definition FormArray_setControl (fuel : nat) (id : cid) (index : Z) (control : option cid)
  : M unit :=
  let* cs := array_controls id in
  _unregisterChild (array_at cs (PIndex index)) ;;
  modify id (set_kind (KArray (splice_remove cs index))) ;;
  (match control with
   | Some ch =>
       let* cs' := array_controls id in
       modify id (set_kind (KArray (splice_insert cs' index ch))) ;;
       FormArray__registerControl id ch
   | None => ret tt
   end) ;;
  updateValueAndValidity validatorFns fuel id None.
End ModelMore.

(* ---------------------------------------------------------------- *)
(** *** utils.ts: [mapConfigToFieldProps] *)

Definition FIELD_PROPS : list string :=
  ["strict"; "render"; "name"; "index"; "control"; "formState"; "options"; "parent"; "meta"].

(** [mapConfigToFieldProps(config)] *)
Definition mapConfigToFieldProps (config : jsval) : list (string * jsval) :=
  if truthy config then
    fold_left (fun props configKey =>
                 if existsb (String.eqb configKey) FIELD_PROPS
                 then obj_set props configKey (default JUndefined (js_get config configKey))
                 else props)
              (default [] (js_keys config)) []
  else [].

(* ================================================================== *)
(** * Auxiliary definitions *)

Definition merge_step (res : list (string * jsval)) (errors : option ValidationErrors) :=
  match errors with Some e => assign (assign [] res) e | None => res end.

Definition later_wins_step (k : string) (acc : option jsval) (r : option ValidationErrors) :=
  match r with
  | Some e => match Validators.obj_get_last e k with Some v => Some v | None => acc end
  | None => acc
  end.

Definition res_state {A} (r : res A) : state :=
  match r with Ok s _ => s | Throw s _ => s end.

(** [m] never changes the state. *)
Definition reader {A} (m : M A) : Prop := forall s, res_state (m s) = s.

(** Every state [m] ends in, normally or by an exception, is related to
    the state it started from. *)
Definition preserves (P : state -> state -> Prop) {A} (m : M A) : Prop := forall s, P s (res_state (m s)).

(** Every control keeps its kind (so a composite keeps its children), its
    parent and its own update strategy. *)
Definition same_shape (c c' : AbstractControl) : Prop :=
  kind c' = kind c /\ _parent c' = _parent c /\ _updateOn c' = _updateOn c.

(** [s'] differs from [s] only in the record of [id], and there not in its
    shape; no notification was emitted and nothing was allocated. *)
Definition local (id : cid) (s s' : state) : Prop :=
  log s' = log s /\ fresh s' = fresh s /\
  (forall j, j <> id -> store s' !! j = store s !! j) /\
  (forall c, store s !! id = Some c ->
     exists c', store s' !! id = Some c' /\ same_shape c c').

Definition shape_kept (s s' : state) : Prop :=
  forall j c, store s !! j = Some c -> exists c', store s' !! j = Some c' /\ same_shape c c'.

(** [value[name] !== undefined] on an object value. *)
Definition supplied (l : list (string * jsval)) (name : string) : bool :=
  match default JUndefined (obj_get l name) with JUndefined => false | _ => true end.

(** The record of [id] keeps its own update strategy. *)
Definition updateOn_kept (id : cid) (s s' : state) : Prop :=
  forall c, store s !! id = Some c ->
    exists c', store s' !! id = Some c' /\ _updateOn c' = _updateOn c.

(** A call that never completes. *)
Definition never_ok {A} (m : M A) : Prop := forall s s' a, m s <> Ok s' a.

(** The control [id] exists, is [DISABLED] and has no errors. *)
Definition disabled_clear (id : cid) (s : state) : Prop :=
  exists c, store s !! id = Some c /\ status c = DISABLED /\ errors c = None.

Definition stays_disabled (id : cid) (s s' : state) : Prop :=
  disabled_clear id s -> disabled_clear id s'.

(** A control holding a given value. *)
Definition control_with_value (v : jsval) : AbstractControl :=
  set_value v (initial_control KControl None None true).

(** Small heaps for the worked examples. *)
Definition ex_group (cs : list (string * cid)) : AbstractControl :=
  initial_control (KGroup cs) None None false.

Definition ex_leaf (parent : option cid) (v : jsval) : AbstractControl :=
  set_parent parent (control_with_value v).

Definition ex_state (l : list (cid * AbstractControl)) : state :=
  mkState (list_to_map l) [] (length l).

(** The environment with no synchronous validator function. *)
Definition no_validators : nat -> gmap cid AbstractControl -> cid -> option ValidationErrors :=
  fun _ _ _ => None.

(** [new FormControl(null)], then [new FormGroup({a: control}, {updateOn: 'blur'})]. *)
Definition blur_group_leaf_state : state :=
  res_state (new_FormControl no_validators 3 JNull NoValidator None (ex_state [])).

Definition blur_group_state : state :=
  res_state (new_FormGroup no_validators 3 [("a", 0)] (OptionsArg None None (Some blur)) None
               blur_group_leaf_state).

(** [new FormControl('x', null, asyncValidator)]: the constructor's
    validation leaves it [PENDING], with a task in flight. *)
Definition pending_leaf_state : state :=
  res_state (new_FormControl no_validators 3 (JStr "x") NoValidator (Some 0) (ex_state [])).

Definition pending_leaf_record : AbstractControl :=
  default (control_with_value JUndefined) (store pending_leaf_state !! 0).

(** A group [{a}] and its leaf [a]. *)
Definition group_and_leaf_state : state :=
  ex_state [(0, ex_group [("a", 1)]); (1, ex_leaf (Some 0) (JNum 1))].

(** Whether the child [ch] is enabled and satisfies [cond]. *)
Definition child_flag (s : state) (cond : AbstractControl -> bool) (ch : cid) : bool :=
  match store s !! ch with Some cc => enabled cc && cond cc | None => false end.

(** The status rule for a composite with children [chs], in the words of
    the specification: [DISABLED] iff every child is disabled (or there
    is no child and the composite itself is disabled); else [INVALID]
    with own errors; else [PENDING] if an enabled child is [PENDING];
    else [INVALID] if an enabled child is [INVALID]; else [VALID]. *)
Definition spec_composite_status (s : state) (chs : list cid) (self_disabled : bool)
  (errs : option ValidationErrors) : FieldStatus :=
  if negb (existsb (child_flag s (fun _ => true)) chs) &&
     (negb (Nat.eqb (length chs) 0) || self_disabled) then DISABLED
  else match errs with
  | Some _ => INVALID
  | None =>
      if existsb (child_flag s (fun cc => FieldStatus_eqb (status cc) PENDING)) chs then PENDING
      else if existsb (child_flag s (fun cc => FieldStatus_eqb (status cc) INVALID)) chs
      then INVALID else VALID
  end.

(** [new FormControl(null)], then [new FormGroup({a: control})]. *)
Definition plain_group_state : state :=
  res_state (new_FormGroup no_validators 3 [("a", 0)] NoValidator None blur_group_leaf_state).

(** The leaf [id], if it is one in [s], is still one in [s'], with the
    same parent, value, [pristine] and [touched]. *)
Definition leaf_kept (id : cid) (s s' : state) : Prop :=
  forall c, store s !! id = Some c -> kind c = KControl ->
  exists c', store s' !! id = Some c' /\ kind c' = KControl /\ _parent c' = _parent c /\
    value c' = value c /\ pristine c' = pristine c /\ touched c' = touched c.

(** [new FormControl('abc')]. *)
Definition abc_leaf_state : state :=
  res_state (new_FormControl no_validators 3 (JStr "abc") NoValidator None (ex_state [])).

(** [new FormControl(null)], then [new FormGroup({a: control}, null, asyncValidator)]. *)
Definition async_group_state : state :=
  res_state (new_FormGroup no_validators 3 [("a", 0)] NoValidator (Some 0) blur_group_leaf_state).

(** [plain_group_state] after [group.disable({})], then [a.enable({})]. *)
Definition reenabled_child_state : state :=
  res_state (enable no_validators 3 0 (Some no_opts)
    (res_state (disable no_validators 3 1 (Some no_opts) plain_group_state))).

(** The controls met going up the parent links from [id]. *)
Fixpoint parent_chain (fuel : nat) (st : gmap cid AbstractControl) (id : cid) : list cid :=
  match fuel with
  | 0 => []
  | S f => id :: match st !! id with
                 | Some c => match _parent c with Some p => parent_chain f st p | None => [] end
                 | None => []
                 end
  end.

(** The ancestors of [id] (itself excluded) that a recursion along the
    parent links with [fuel] can reach. *)
Definition ancestors (fuel : nat) (st : gmap cid AbstractControl) (id : cid) : list cid :=
  tail (parent_chain fuel st id).

(** The controls met going down the children from [id]. *)
Fixpoint subtree (fuel : nat) (st : gmap cid AbstractControl) (id : cid) : list cid :=
  match fuel with
  | 0 => []
  | S f => id :: match st !! id with
                 | Some c => flat_map (subtree f st) (children_of c)
                 | None => []
                 end
  end.

(** The descendants of [id] (itself excluded) that a recursion along the
    children with [fuel] can reach. *)
Definition descendants (fuel : nat) (st : gmap cid AbstractControl) (id : cid) : list cid :=
  tail (subtree fuel st id).

(** The controls below [id] are all in the heap, and [fuel] exceeds the
    height of the tree they form. *)
Fixpoint complete_tree (fuel : nat) (st : gmap cid AbstractControl) (id : cid) : bool :=
  match fuel with
  | 0 => false
  | S f => match st !! id with
           | Some c => forallb (complete_tree f st) (children_of c)
           | None => false
           end
  end.

(** A [FormGroup] (whose keys, as an object's, are distinct) or a
    [FormArray]. *)
Definition composite_kind (k : ControlKind) : Prop :=
  match k with
  | KControl => False
  | KGroup cs => NoDup (map fst cs)
  | KArray _ => True
  end.

(** Every control is still there or still absent, with the same parent. *)
Definition parents_same (s s' : state) : Prop :=
  forall j, _parent <$> store s' !! j = _parent <$> store s !! j.

(** [s'] keeps the parent links of [s] and differs from it only in the
    records of [A]. *)
Definition frame_outside (A : list cid) (s s' : state) : Prop :=
  parents_same s s' /\ forall j, ~ In j A -> store s' !! j = store s !! j.

(** Every control is still there or still absent, with the same kind. *)
Definition kinds_same (s s' : state) : Prop :=
  forall j, kind <$> store s' !! j = kind <$> store s !! j.

(** [s'] keeps the kinds of [s] and differs from it only in the records
    of [A]. *)
Definition frame_sub (A : list cid) (s s' : state) : Prop :=
  kinds_same s s' /\ forall j, ~ In j A -> store s' !! j = store s !! j.

(** Starting from [s0], the run stays in a frame of [s0] over [A]. *)
Definition fo_from (A : list cid) (s0 s1 s2 : state) : Prop :=
  frame_outside A s0 s1 -> frame_outside A s0 s2.

Definition fs_from (A : list cid) (s0 s1 s2 : state) : Prop :=
  frame_sub A s0 s1 -> frame_sub A s0 s2.

(** A group [{arr, b}] validating on submit, holding an array [arr] of a
    [PENDING] and an [INVALID] leaf, and an [INVALID] leaf [b]. *)
Definition status_tree_state : state :=
  ex_state [(0, set_updateOn (Some submit) (ex_group [("arr", 1); ("b", 4)]));
            (1, set_parent (Some 0) (initial_control (KArray [2; 3]) None None false));
            (2, set_status PENDING (ex_leaf (Some 1) (JNum 2)));
            (3, set_errors (Some [("required", JBool true)])
                  (set_status INVALID (ex_leaf (Some 1) JNull)));
            (4, set_errors (Some [("required", JBool true)])
                  (set_status INVALID (ex_leaf (Some 0) JNull)))].

(** [new FormControl('abc')], then [new FormGroup({a: control})]. *)
Definition abc_group_state : state :=
  res_state (new_FormGroup no_validators 3 [("a", 0)] NoValidator None abc_leaf_state).

(** * Properties *)

(* ------------------------------------------------------------------ *)
(** ** Objects and the merge of error maps *)

Lemma obj_get_set {A} (l : list (string * A)) k v k' :
  obj_get (obj_set l k v) k' = if String.eqb k' k then Some v else obj_get l k'.
Proof.
  induction l as [|[k0 v0] l IH]; simpl.
  - destruct (String.eqb k' k); reflexivity.
  - destruct (String.eqb_spec k k0) as [->|Hne]; simpl.
    + destruct (String.eqb k' k0); reflexivity.
    + rewrite IH. destruct (String.eqb_spec k' k0) as [->|Hne'].
      * destruct (String.eqb_spec k0 k); [congruence | reflexivity].
      * reflexivity.
Qed.

Lemma obj_get_assign {A} (src t : list (string * A)) k :
  obj_get (assign t src) k =
  match Validators.obj_get_last src k with Some w => Some w | None => obj_get t k end.
Proof.
  revert t. induction src as [|[k0 v0] src IH]; intros t; simpl; [reflexivity|].
  unfold assign in *. simpl. rewrite IH, obj_get_set.
  destruct (Validators.obj_get_last src k); [reflexivity|].
  destruct (String.eqb k k0); reflexivity.
Qed.

Lemma obj_set_keys_in {A} (l : list (string * A)) k v x :
  x ∈ map fst (obj_set l k v) <-> x = k \/ x ∈ map fst l.
Proof.
  induction l as [|[k0 v0] l IH]; simpl.
  - rewrite elem_of_cons. split; [intros [->|H]; [tauto|inversion H] | intros [->|H]; [tauto|inversion H]].
  - destruct (String.eqb_spec k k0) as [->|Hne]; simpl.
    + rewrite !elem_of_cons. naive_solver.
    + rewrite !elem_of_cons, IH. naive_solver.
Qed.

Lemma obj_set_NoDup {A} (l : list (string * A)) k v :
  NoDup (map fst l) -> NoDup (map fst (obj_set l k v)).
Proof.
  induction l as [|[k0 v0] l IH]; simpl; intros Hnd.
  - apply NoDup_singleton.
  - apply NoDup_cons in Hnd as [Hnin Hnd'].
    destruct (String.eqb_spec k k0) as [->|Hne]; simpl.
    + apply NoDup_cons; split; assumption.
    + apply NoDup_cons; split; [|auto]. rewrite obj_set_keys_in. intros [->|H]; [congruence|tauto].
Qed.

Lemma assign_NoDup {A} (src t : list (string * A)) :
  NoDup (map fst t) -> NoDup (map fst (assign t src)).
Proof.
  revert t. induction src as [|[k0 v0] src IH]; intros t Ht; [exact Ht|].
  unfold assign in *; simpl. apply IH, obj_set_NoDup, Ht.
Qed.

Lemma obj_get_not_key {A} (l : list (string * A)) k :
  k ∉ map fst l -> obj_get l k = None.
Proof.
  induction l as [|[k0 v0] l IH]; simpl; intros Hn; [reflexivity|].
  rewrite elem_of_cons in Hn.
  destruct (String.eqb_spec k k0); [subst; tauto|]. apply IH. tauto.
Qed.

Lemma obj_get_last_NoDup {A} (l : list (string * A)) k :
  NoDup (map fst l) -> Validators.obj_get_last l k = obj_get l k.
Proof.
  induction l as [|[k0 v0] l IH]; simpl; intros Hnd; [reflexivity|].
  apply NoDup_cons in Hnd as [Hnin Hnd']. rewrite IH by assumption.
  destruct (String.eqb_spec k k0) as [->|Hne].
  - rewrite obj_get_not_key by assumption. reflexivity.
  - destruct (obj_get l k); reflexivity.
Qed.

Lemma obj_get_nil_iff {A} (l : list (string * A)) :
  l = [] <-> forall k, obj_get l k = None.
Proof.
  split; [intros ->; reflexivity|].
  destruct l as [|[k v] l]; [reflexivity|]. intros H. specialize (H k).
  simpl in H. rewrite String.eqb_refl in H. discriminate.
Qed.


Lemma merge_fold_lookup (rs : list (option ValidationErrors)) acc k :
  NoDup (map fst acc) ->
  obj_get (fold_left merge_step rs acc) k = fold_left (later_wins_step k) rs (obj_get acc k).
Proof.
  revert acc. induction rs as [|r rs IH]; intros acc Hnd; simpl; [reflexivity|].
  destruct r as [e|]; simpl; [|apply IH, Hnd].
  rewrite IH by (apply assign_NoDup, assign_NoDup; apply NoDup_nil_2).
  f_equal. rewrite obj_get_assign, obj_get_assign. simpl.
  rewrite (obj_get_last_NoDup acc) by assumption. simpl. destruct (Validators.obj_get_last e k); [reflexivity|]. destruct (obj_get acc k); reflexivity.
Qed.

Lemma mergeErrors_lookup (rs : list (option ValidationErrors)) k :
  obj_get (default [] (Validators._mergeErrors rs)) k = Validators.later_wins rs k.
Proof.
  unfold Validators._mergeErrors, Validators.later_wins.
  change (fold_left (fun res errors => match errors with
            | Some e => assign (assign [] res) e | None => res end) rs [])
    with (fold_left merge_step rs []).
  change (fold_left (fun acc r => match r with
            | Some e => match Validators.obj_get_last e k with Some v => Some v | None => acc end
            | None => acc end) rs None)
    with (fold_left (later_wins_step k) rs (obj_get (A:=jsval) [] k)).
  rewrite <- merge_fold_lookup by apply NoDup_nil_2.
  destruct (fold_left merge_step rs []) as [|kv l]; reflexivity.
Qed.

Lemma mergeErrors_None_iff (rs : list (option ValidationErrors)) :
  Validators._mergeErrors rs = None <-> forall k, Validators.later_wins rs k = None.
Proof.
  setoid_rewrite <- mergeErrors_lookup.
  unfold Validators._mergeErrors.
  change (fold_left (fun res errors => match errors with
            | Some e => assign (assign [] res) e | None => res end) rs [])
    with (fold_left merge_step rs []).
  destruct (fold_left merge_step rs []) as [|[k v] l] eqn:E; simpl.
  - split; reflexivity.
  - split; [discriminate|]. intros H. specialize (H k). simpl in H.
    rewrite String.eqb_refl in H. discriminate.
Qed.

Lemma mergeErrors_not_empty (rs : list (option ValidationErrors)) :
  Validators._mergeErrors rs <> Some [].
Proof.
  unfold Validators._mergeErrors.
  change (fold_left (fun res errors => match errors with
            | Some e => assign (assign [] res) e | None => res end) rs [])
    with (fold_left merge_step rs []).
  destruct (fold_left merge_step rs []) as [|kv l]; simpl; congruence.
Qed.

Lemma omap_filter_isPresent {C} (vs : list (option (@Validators.ValidatorFn C))) :
  omap (fun o => o) (filter Validators.isPresent vs) = omap (fun o => o) vs.
Proof.
  induction vs as [|[v|] vs IH]; simpl; [reflexivity| |exact IH].
  simpl. f_equal. exact IH.
Qed.

Lemma omap_id_nil_iff {A} (vs : list (option A)) :
  omap (fun o => o) vs = [] <-> Forall (fun o => o = None) vs.
Proof.
  induction vs as [|[v|] vs IH]; simpl.
  - split; constructor.
  - split; [discriminate|]. intros H. inversion H. discriminate.
  - rewrite IH. split; [constructor; auto | intros H; inversion H; auto].
Qed.


(** *** Frames: what a computation may change in the state *)


Section Preserve.
Variable P : state -> state -> Prop.
Hypothesis P_refl : forall s, P s s.
Hypothesis P_trans : forall s1 s2 s3, P s1 s2 -> P s2 s3 -> P s1 s3.

Lemma reader_preserves {A} (m : M A) : reader m -> preserves P m.
Proof. intros H s. rewrite H. apply P_refl. Qed.

Lemma preserves_bind {A B} (m : M A) (k : A -> M B) :
  preserves P m -> (forall a, preserves P (k a)) -> preserves P (bind m k).
Proof.
  intros Hm Hk s. specialize (Hm s). unfold bind.
  destruct (m s) as [s' a|s' e]; simpl in *; [|exact Hm].
  eapply P_trans; [exact Hm | apply Hk].
Qed.
End Preserve.

Lemma reader_ret {A} (a : A) : reader (ret a).
Proof. intros s. reflexivity. Qed.

Lemma reader_throw {A} e : reader (A:=A) (throw e).
Proof. intros s. reflexivity. Qed.

Lemma reader_bind {A B} (m : M A) (k : A -> M B) :
  reader m -> (forall a, reader (k a)) -> reader (bind m k).
Proof.
  intros Hm Hk s. specialize (Hm s). unfold bind.
  destruct (m s) as [s' a|s' e]; simpl in *; [|exact Hm].
  rewrite Hk. exact Hm.
Qed.

Lemma reader_get_control id : reader (get_control id).
Proof. intros s. unfold get_control. destruct (store s !! id); reflexivity. Qed.

Lemma reader_get_store : reader get_store.
Proof. intros s. reflexivity. Qed.

Lemma reader_deref_opts o : reader (deref_opts o).
Proof. destruct o; intros s; reflexivity. Qed.

Create HintDb readers.
#[local] Hint Resolve reader_ret reader_throw reader_get_control reader_get_store
  reader_deref_opts : readers.

Ltac reader_step :=
  lazymatch goal with
  | |- reader (bind _ _) => apply reader_bind; [|intros ?]
  | |- reader (match ?x with _ => _ end) => destruct x
  | |- reader (if ?b then _ else _) => destruct b
  | |- _ => auto with readers
  end.
Ltac solve_reader := repeat reader_step.

Section Readers.
Variable validatorFns : nat -> gmap cid AbstractControl -> cid -> option ValidationErrors.

Lemma reader_get_updateOn fuel id : reader (get_updateOn fuel id).
Proof.
  revert id. induction fuel as [|f IH]; intros id; simpl; solve_reader.
Qed.

Lemma reader__reduceValue d cs acc : reader (_reduceValue d cs acc).
Proof. revert acc. induction cs as [|[n ch] cs IH]; intros acc; simpl; solve_reader. Qed.

Lemma reader__arrayValue d cs : reader (_arrayValue d cs).
Proof. induction cs as [|ch cs IH]; simpl; solve_reader. Qed.

Lemma reader__someEnabled cs : reader (_someEnabled cs).
Proof. induction cs as [|ch cs IH]; simpl; solve_reader. Qed.

Lemma reader__allControlsDisabled id : reader (_allControlsDisabled id).
Proof. unfold _allControlsDisabled. solve_reader; apply reader__someEnabled. Qed.

Lemma reader_contains cs n : reader (contains cs n).
Proof. unfold contains. solve_reader. Qed.

Lemma reader__groupAny controls cond cs r : reader (_groupAny controls cond cs r).
Proof.
  revert r. induction cs as [|[n ch] cs IH]; intros r; simpl; solve_reader;
    apply reader_contains.
Qed.

Lemma reader__arrayAny cond cs : reader (_arrayAny cond cs).
Proof. induction cs as [|ch cs IH]; simpl; solve_reader. Qed.

Lemma reader__anyControls id cond : reader (_anyControls id cond).
Proof. unfold _anyControls. solve_reader; auto using reader__groupAny, reader__arrayAny. Qed.

Lemma reader__calculateStatus id : reader (_calculateStatus id).
Proof.
  unfold _calculateStatus, _anyControlsHaveStatus.
  solve_reader; auto using reader__allControlsDisabled, reader__anyControls.
Qed.

Lemma reader__runValidator id : reader (_runValidator validatorFns id).
Proof. unfold _runValidator. solve_reader. Qed.
End Readers.

#[local] Hint Resolve reader_get_updateOn reader__reduceValue reader__arrayValue
  reader__someEnabled reader__allControlsDisabled reader__anyControls
  reader__calculateStatus reader__runValidator : readers.



Lemma same_shape_refl c : same_shape c c.
Proof. repeat split. Qed.

Lemma same_shape_trans c1 c2 c3 : same_shape c1 c2 -> same_shape c2 c3 -> same_shape c1 c3.
Proof. intros (K1 & P1 & U1) (K2 & P2 & U2). repeat split; congruence. Qed.

Lemma local_refl id s : local id s s.
Proof. repeat split; eauto using same_shape_refl. Qed.

Lemma local_trans id s1 s2 s3 : local id s1 s2 -> local id s2 s3 -> local id s1 s3.
Proof.
  intros (L1 & F1 & O1 & I1) (L2 & F2 & O2 & I2). repeat split.
  - congruence.
  - congruence.
  - intros j Hj. rewrite O2, O1 by exact Hj. reflexivity.
  - intros c Hc. destruct (I1 c Hc) as (c1 & H1 & K1).
    destruct (I2 c1 H1) as (c2 & H2 & K2). exists c2. split; [exact H2|]. eapply same_shape_trans; eauto.
Qed.

Lemma preserves_local_modify id f :
  (forall c, same_shape c (f c)) ->
  preserves (local id) (modify id f).
Proof.
  intros Hf s. unfold modify. destruct (store s !! id) as [c|] eqn:E; simpl; [|apply local_refl].
  repeat split.
  - intros j Hj. simpl. apply lookup_insert_ne. congruence.
  - intros c' Hc'. rewrite E in Hc'. injection Hc' as <-. exists (f c).
    split; [apply lookup_insert_eq|]. apply Hf.
Qed.

Lemma local_bind {A B} id (m : M A) (k : A -> M B) :
  preserves (local id) m -> (forall a, preserves (local id) (k a)) ->
  preserves (local id) (bind m k).
Proof. intros Hm Hk. exact (preserves_bind _ (local_trans id) m k Hm Hk). Qed.

Lemma local_reader {A} id (m : M A) : reader m -> preserves (local id) m.
Proof. exact (reader_preserves _ (local_refl id) m). Qed.

Ltac local_step :=
  lazymatch goal with
  | |- preserves (local _) (bind _ _) => apply local_bind; [|intros ?]
  | |- preserves (local _) (modify _ _) => apply preserves_local_modify; intros; repeat split
  | |- preserves (local _) (match ?x with _ => _ end) => destruct x
  | |- preserves (local _) (if ?b then _ else _) => destruct b
  | |- preserves (local _) _ => apply local_reader; solve_reader
  end.

Section Locality.
Variable validatorFns : nat -> gmap cid AbstractControl -> cid -> option ValidationErrors.

Lemma local_setInitialStatus id : preserves (local id) (setInitialStatus id).
Proof. unfold setInitialStatus. local_step. Qed.

Lemma local__updateValue id : preserves (local id) (_updateValue id).
Proof. unfold _updateValue, FormControl__updateValue. repeat local_step. Qed.

Lemma local__runAsyncValidator id e : preserves (local id) (_runAsyncValidator id e).
Proof. unfold _runAsyncValidator. repeat local_step. Qed.

(** Without an options argument, [updateValueAndValidity] changes the
    control's own record only, and emits nothing. *)
Lemma updateValueAndValidity_None_local fuel id :
  preserves (local id) (updateValueAndValidity validatorFns fuel id None).
Proof.
  destruct fuel as [|f]; simpl; [apply local_reader; solve_reader|].
  unfold _cancelExistingSubscription.
  repeat (apply local_setInitialStatus || apply local__updateValue
          || apply local__runAsyncValidator || local_step).
Qed.
End Locality.

Lemma shape_kept_refl s : shape_kept s s.
Proof. intros j c Hc. exists c. split; [exact Hc | apply same_shape_refl]. Qed.

Lemma shape_kept_trans s1 s2 s3 : shape_kept s1 s2 -> shape_kept s2 s3 -> shape_kept s1 s3.
Proof.
  intros H1 H2 j c Hc. destruct (H1 j c Hc) as (c1 & E1 & K1).
  destruct (H2 j c1 E1) as (c2 & E2 & K2). exists c2. split; [exact E2 | eapply same_shape_trans; eauto].
Qed.

Lemma local_shape_kept id s s' : local id s s' -> shape_kept s s'.
Proof.
  intros (_ & _ & Ho & Hi) j c Hc. destruct (decide (j = id)) as [->|Hne].
  - destruct (Hi c Hc) as (c' & E & K). exists c'. split; [exact E | exact K].
  - exists c. split; [rewrite Ho by exact Hne; exact Hc | apply same_shape_refl].
Qed.

Lemma kk_local {A} id (m : M A) : preserves (local id) m -> preserves shape_kept m.
Proof. intros H s. apply (local_shape_kept id), H. Qed.

Lemma kk_bind {A B} (m : M A) (k : A -> M B) :
  preserves shape_kept m -> (forall a, preserves shape_kept (k a)) ->
  preserves shape_kept (bind m k).
Proof. intros Hm Hk. exact (preserves_bind _ shape_kept_trans m k Hm Hk). Qed.

Lemma kk_reader {A} (m : M A) : reader m -> preserves shape_kept m.
Proof. exact (reader_preserves _ shape_kept_refl m). Qed.

Lemma kk_emit e : preserves shape_kept (emit e).
Proof. intros s j c Hc. exists c. split; [exact Hc | apply same_shape_refl]. Qed.

Lemma kk_modify id f : (forall c, same_shape c (f c)) -> preserves shape_kept (modify id f).
Proof.
  intros Hf s. unfold modify. destruct (store s !! id) as [c0|] eqn:E; simpl;
    [|apply shape_kept_refl].
  intros j c Hc. destruct (decide (j = id)) as [->|Hne].
  - rewrite E in Hc. injection Hc as <-. exists (f c0). simpl. rewrite lookup_insert_eq. auto.
  - exists c. simpl. rewrite lookup_insert_ne by congruence. auto using same_shape_refl.
Qed.

Lemma kk_for_each {A} (l : list A) (F : A -> M unit) :
  (forall x, preserves shape_kept (F x)) -> preserves shape_kept (for_each l F).
Proof.
  intros HF. induction l as [|x l IH]; simpl.
  - apply kk_reader, reader_ret.
  - apply kk_bind; [apply HF | intros _; exact IH].
Qed.

Ltac kk_step :=
  lazymatch goal with
  | |- preserves shape_kept (bind _ _) => apply kk_bind; [|intros ?]
  | |- preserves shape_kept (modify _ _) => apply kk_modify; intros; repeat split
  | |- preserves shape_kept (emit _) => apply kk_emit
  | |- preserves shape_kept (for_each _ _) => apply kk_for_each; intros ?
  | |- preserves shape_kept (match ?x with _ => _ end) => destruct x
  | |- preserves shape_kept (if ?b then _ else _) => destruct b
  | |- preserves shape_kept _ => apply kk_reader; solve_reader
  end.

(** The state seen by each step of a [for_each] that completes. *)
Lemma for_each_Ok_inv {A} (P : state -> state -> Prop)
    (P_refl : forall s, P s s) (P_trans : forall s1 s2 s3, P s1 s2 -> P s2 s3 -> P s1 s3)
    (l : list A) (F : A -> M unit) s s' :
  (forall x, preserves P (F x)) -> for_each l F s = Ok s' tt ->
  forall x, In x l -> exists sx sx', P s sx /\ F x sx = Ok sx' tt.
Proof.
  intros HF. revert s. induction l as [|y l IH]; intros s Hr x Hx; [destruct Hx|].
  simpl in Hr. unfold bind in Hr. destruct (F y s) as [s1 []|s1 e] eqn:E; [|discriminate].
  destruct Hx as [<-|Hx].
  - exists s, s1. split; [apply P_refl | exact E].
  - destruct (IH s1 Hr x Hx) as (sx & sx' & H1 & H2). exists sx, sx'. split; [|exact H2].
    apply (P_trans _ s1); [|exact H1]. specialize (HF y s). rewrite E in HF. exact HF.
Qed.

Lemma for_each_reader {A} (l : list A) (F : A -> M unit) s :
  (forall x, reader (F x)) -> res_state (for_each l F s) = s.
Proof.
  intros HF. revert s. induction l as [|x l IH]; intros s; [reflexivity|]. simpl.
  unfold bind. pose proof (HF x s) as Hx.
  destruct (F x s) as [s1 []|s1 e]; simpl in *; subst s1; [apply IH | reflexivity].
Qed.

(** A [for_each] whose first steps complete without changing the state
    and whose next step throws, throws that. *)
Lemma for_each_app_throw {A} (pre post : list A) x (F : A -> M unit) s e :
  Forall (fun y => F y s = Ok s tt) pre -> F x s = Throw s e ->
  for_each (pre ++ x :: post) F s = Throw s e.
Proof.
  intros Hpre Hx. induction Hpre as [|y pre Hy _ IH]; simpl; unfold bind.
  - rewrite Hx. reflexivity.
  - rewrite Hy. exact IH.
Qed.

Section KindsKept.
Variable validatorFns : nat -> gmap cid AbstractControl -> cid -> option ValidationErrors.

Lemma kk_updateValueAndValidity fuel id o :
  preserves shape_kept (updateValueAndValidity validatorFns fuel id o).
Proof.
  revert id o. induction fuel as [|f IH]; intros id o; simpl; [kk_step|].
  unfold _cancelExistingSubscription.
  repeat (apply (kk_local id), local_setInitialStatus || apply (kk_local id), local__updateValue
          || apply (kk_local id), local__runAsyncValidator || apply IH || kk_step).
Qed.

Lemma kk_setValue fuel id v o : preserves shape_kept (setValue validatorFns fuel id v o).
Proof.
  revert id v o. induction fuel as [|f IH]; intros id v o; simpl; [kk_step|].
  unfold FormControl_setValue, _checkAllValuesPresent, _checkAllValuesPresentArray,
    _throwIfControlMissing, _throwIfControlMissingArray, group_controls, array_controls,
    js_get_m, js_keys_m.
  repeat (apply kk_updateValueAndValidity || apply IH || kk_step).
Qed.
Lemma kk__updatePristine fuel id o : preserves shape_kept (_updatePristine fuel id o).
Proof.
  revert id o. induction fuel as [|f IH]; intros id o; simpl; [kk_step|].
  repeat (apply IH || kk_step).
Qed.

Lemma kk__updateTouched fuel id o : preserves shape_kept (_updateTouched fuel id o).
Proof.
  revert id o. induction fuel as [|f IH]; intros id o; simpl; [kk_step|].
  repeat (apply IH || kk_step).
Qed.

Lemma kk__updateAncestors fuel id b :
  preserves shape_kept (_updateAncestors validatorFns fuel id b).
Proof.
  unfold _updateAncestors.
  repeat (apply kk_updateValueAndValidity || apply kk__updatePristine
          || apply kk__updateTouched || kk_step).
Qed.

Lemma kk__updateValue id : preserves shape_kept (_updateValue id).
Proof. apply (kk_local id), local__updateValue. Qed.

Lemma kk_disable fuel id o : preserves shape_kept (disable validatorFns fuel id o).
Proof.
  revert id o. induction fuel as [|f IH]; intros id o; simpl; [kk_step|].
  repeat (apply IH || apply kk__updateValue || apply kk__updateAncestors || kk_step).
Qed.

Lemma kk_enable fuel id o : preserves shape_kept (enable validatorFns fuel id o).
Proof.
  revert id o. induction fuel as [|f IH]; intros id o; simpl; [kk_step|].
  repeat (apply IH || apply kk_updateValueAndValidity || apply kk__updateAncestors
          || kk_step).
Qed.

Lemma kk__applyFormState fuel id v :
  preserves shape_kept (_applyFormState validatorFns fuel id v).
Proof.
  unfold _applyFormState. repeat (apply kk_disable || apply kk_enable || kk_step).
Qed.
End KindsKept.

(* ------------------------------------------------------------------ *)
(** ** Calls that cannot complete *)

Lemma bind_ret {A B} (a : A) (k : A -> M B) : bind (ret a) k = k a.
Proof. reflexivity. Qed.

Lemma never_ok_throw {A} e : never_ok (A:=A) (throw e).
Proof. intros s s' a H. discriminate H. Qed.

Lemma never_ok_bind_l {A B} (m : M A) (k : A -> M B) : never_ok m -> never_ok (bind m k).
Proof.
  intros Hm s s' b. unfold bind. destruct (m s) as [s1 a|s1 e] eqn:E; [|discriminate].
  exfalso. exact (Hm s s1 a E).
Qed.

Lemma never_ok_bind_r {A B} (m : M A) (k : A -> M B) :
  (forall a, never_ok (k a)) -> never_ok (bind m k).
Proof.
  intros Hk s s' b. unfold bind. destruct (m s) as [s1 a|s1 e]; [apply Hk | discriminate].
Qed.

Lemma reader_bind_throw {A B} e (k : A -> M B) : reader (bind (throw e) k).
Proof. intros s. reflexivity. Qed.

Ltac never_ok_step :=
  lazymatch goal with
  | |- never_ok (bind (throw _) _) => apply never_ok_bind_l, never_ok_throw
  | |- never_ok (bind _ _) => apply never_ok_bind_r; intros ?
  | |- never_ok (throw _) => apply never_ok_throw
  end.

(* ------------------------------------------------------------------ *)
(** ** Disabling writes [DISABLED] and clears the errors only *)

Lemma stays_disabled_refl id s : stays_disabled id s s.
Proof. intros H. exact H. Qed.

Lemma stays_disabled_trans id s1 s2 s3 :
  stays_disabled id s1 s2 -> stays_disabled id s2 s3 -> stays_disabled id s1 s3.
Proof. intros H1 H2 H. exact (H2 (H1 H)). Qed.

Lemma preserves_for_each {A} (P : state -> state -> Prop)
    (P_refl : forall s, P s s) (P_trans : forall s1 s2 s3, P s1 s2 -> P s2 s3 -> P s1 s3)
    (l : list A) (F : A -> M unit) :
  (forall x, preserves P (F x)) -> preserves P (for_each l F).
Proof.
  intros HF. induction l as [|x l IH]; simpl.
  - apply (reader_preserves _ P_refl), reader_ret.
  - apply (preserves_bind _ P_trans); [apply HF | intros _; exact IH].
Qed.

Lemma sd_modify id j f :
  (forall c, status c = DISABLED -> errors c = None ->
             status (f c) = DISABLED /\ errors (f c) = None) ->
  preserves (stays_disabled id) (modify j f).
Proof.
  intros Hf s (c & Hc & S & Er). unfold modify.
  unfold disabled_clear. destruct (store s !! j) as [cj|] eqn:Ej; simpl; [|exists c; auto].
  destruct (decide (j = id)) as [->|Hne].
  - rewrite Hc in Ej. injection Ej as <-. exists (f c). rewrite lookup_insert_eq. auto.
  - exists c. rewrite lookup_insert_ne by congruence. auto.
Qed.

Lemma sd_emit id e : preserves (stays_disabled id) (emit e).
Proof. intros s H. exact H. Qed.

Ltac sd_step :=
  lazymatch goal with
  | |- preserves _ (bind (ret _) _) => rewrite bind_ret; simpl
  | |- preserves _ (bind (throw _) _) =>
      apply (reader_preserves _ (stays_disabled_refl _)), reader_bind_throw
  | |- preserves _ (bind _ _) => apply (preserves_bind _ (stays_disabled_trans _)); [|intros ?]
  | |- preserves _ (modify _ _) => apply sd_modify; intros ? ? ?; simpl; auto
  | |- preserves _ (emit _) => apply sd_emit
  | |- preserves _ (for_each _ _) =>
      apply (preserves_for_each _ (stays_disabled_refl _) (stays_disabled_trans _)); intros ?
  | |- preserves _ (match ?x with _ => _ end) => destruct x
  | |- preserves _ (if ?b then _ else _) => destruct b
  | |- preserves _ _ => apply (reader_preserves _ (stays_disabled_refl _)); solve_reader
  end.

Section Disable.
Variable validatorFns : nat -> gmap cid AbstractControl -> cid -> option ValidationErrors.

Lemma reader__updateAncestors_onlySelf fuel id :
  reader (_updateAncestors validatorFns fuel id true).
Proof. unfold _updateAncestors. solve_reader. Qed.

(** A child's [disable({onlySelf: true})] keeps every control that is
    [DISABLED] with no errors so. *)
Lemma sd_disable_child id fuel ch :
  preserves (stays_disabled id) (disable validatorFns fuel ch child_opts).
Proof.
  revert ch. induction fuel as [|f IH]; intros ch; simpl; [sd_step|].
  unfold _updateValue, FormControl__updateValue.
  repeat (apply IH || apply (reader_preserves _ (stays_disabled_refl _)),
          reader__updateAncestors_onlySelf || sd_step).
Qed.

Lemma never_ok_disable_None fuel id : never_ok (disable validatorFns fuel id None).
Proof. destruct fuel as [|f]; simpl; repeat never_ok_step. Qed.

Lemma never_ok_enable_None fuel id : never_ok (enable validatorFns fuel id None).
Proof. destruct fuel as [|f]; simpl; repeat never_ok_step. Qed.
End Disable.

(* ------------------------------------------------------------------ *)
(** ** Running the monad step by step *)

Lemma bind_get_control {A} id c (k : AbstractControl -> M A) s :
  store s !! id = Some c -> bind (get_control id) k s = k c s.
Proof. intros H. unfold bind, get_control. rewrite H. reflexivity. Qed.

Lemma setValue_group_step validatorFns f s g gc cs v opts :
  store s !! g = Some gc -> kind gc = KGroup cs ->
  setValue validatorFns (S f) g v opts s =
  (_checkAllValuesPresent g v ;;
   let* ks := js_keys_m v in
   for_each ks (fun name =>
     _throwIfControlMissing g name ;;
     let* cs := group_controls g in
     match obj_get cs name with
     | Some ch =>
         let* x := js_get_m v name in
         setValue validatorFns f ch x (Some (mkOpts (Some true) (emitEvent (default no_opts opts))))
     | None => throw (TypeError msg_undefined)
     end) ;;
   updateValueAndValidity validatorFns f g (Some (default no_opts opts))) s.
Proof.
  intros Hg Hk. cbn [setValue]. rewrite (bind_get_control _ gc) by exact Hg. rewrite Hk.
  reflexivity.
Qed.

Lemma bind_Ok {A B} (m : M A) (k : A -> M B) s s1 a :
  m s = Ok s1 a -> bind m k s = k a s1.
Proof. intros H. unfold bind. rewrite H. reflexivity. Qed.

Lemma bind_Throw {A B} (m : M A) (k : A -> M B) s s1 e :
  m s = Throw s1 e -> bind m k s = Throw s1 e.
Proof. intros H. unfold bind. rewrite H. reflexivity. Qed.

Lemma bind_Ok_inv {A B} (m : M A) (k : A -> M B) s s' b :
  bind m k s = Ok s' b -> exists s1 a, m s = Ok s1 a /\ k a s1 = Ok s' b.
Proof.
  unfold bind. destruct (m s) as [s1 a|s1 e]; [|discriminate]. intros H. eauto.
Qed.

Lemma group_controls_Ok s g gc cs :
  store s !! g = Some gc -> kind gc = KGroup cs -> group_controls g s = Ok s cs.
Proof. intros Hg Hk. unfold group_controls. rewrite (bind_get_control _ gc) by exact Hg. rewrite Hk. reflexivity. Qed.

Lemma check_step_eq l (nc : string * cid) s :
  (let '(name, _) := nc in
   let* x := js_get_m (JObj l) name in
   match x with JUndefined => throw (Error (msg_must_supply name)) | _ => ret tt end) s =
  if supplied l nc.1 then Ok s tt else Throw s (Error (msg_must_supply nc.1)).
Proof.
  destruct nc as [name ch]. unfold supplied, js_get_m. simpl.
  destruct (default JUndefined (obj_get l name)); reflexivity.
Qed.

Lemma preserves_Ok {A} (P : state -> state -> Prop) (m : M A) s s' a :
  preserves P m -> m s = Ok s' a -> P s s'.
Proof. intros H E. specialize (H s). rewrite E in H. exact H. Qed.

Lemma updateOn_kept_trans id s1 s2 s3 :
  updateOn_kept id s1 s2 -> updateOn_kept id s2 s3 -> updateOn_kept id s1 s3.
Proof.
  intros H1 H2 c Hc. destruct (H1 c Hc) as (c1 & E1 & U1).
  destruct (H2 c1 E1) as (c2 & E2 & U2). exists c2. split; [exact E2 | congruence].
Qed.

Lemma updateOn_kept_refl id s : updateOn_kept id s s.
Proof. intros c Hc. exists c. split; [exact Hc | reflexivity]. Qed.

Lemma updateOn_kept_modify id j f :
  (forall c, _updateOn (f c) = _updateOn c) -> preserves (updateOn_kept id) (modify j f).
Proof.
  intros Hf s c Hc. unfold modify. destruct (store s !! j) as [cj|] eqn:E; simpl;
    [|exists c; split; [exact Hc | reflexivity]].
  destruct (decide (j = id)) as [->|Hne].
  - rewrite lookup_insert_eq. rewrite E in Hc. injection Hc as <-. eexists; split; [reflexivity | apply Hf].
  - rewrite lookup_insert_ne by exact Hne. exists c. split; [exact Hc | reflexivity].
Qed.

Lemma updateOn_kept_registerControl id g name s :
  updateOn_kept id s (res_state (registerControl g name id s)).
Proof.
  assert (Hb : forall {A B} (m : M A) (k : A -> M B),
    preserves (updateOn_kept id) m -> (forall a, preserves (updateOn_kept id) (k a)) ->
    preserves (updateOn_kept id) (bind m k)).
  { intros A B m k. apply preserves_bind, updateOn_kept_trans. }
  assert (Hr : forall {A} (m : M A), reader m -> preserves (updateOn_kept id) m).
  { intros A m. apply reader_preserves, updateOn_kept_refl. }
  revert s. unfold registerControl.
  apply Hb; [apply Hr, reader_get_control | intros g0].
  destruct (kind g0) as [|cs|cs]; [apply Hr, reader_throw| |apply Hr, reader_throw].
  destruct (obj_get cs name); [apply Hr, reader_ret|].
  repeat (apply Hb; [apply updateOn_kept_modify; reflexivity | intros _]).
  apply Hr, reader_ret.
Qed.

(* ------------------------------------------------------------------ *)
(** ** The children a group looks at *)

Lemma obj_get_NoDup_In {A} (l : list (string * A)) n v :
  NoDup (map fst l) -> In (n, v) l -> obj_get l n = Some v.
Proof.
  induction l as [|[k w] l IH]; simpl; [tauto|]. intros Hnd Hin.
  apply NoDup_cons in Hnd as [Hk Hnd]. destruct Hin as [E|Hin].
  - injection E as -> ->. rewrite String.eqb_refl. reflexivity.
  - destruct (String.eqb_spec n k) as [->|Hne]; [|apply IH; assumption].
    exfalso. apply Hk. apply list_elem_of_In, in_map_iff. exists (k, v). auto.
Qed.

Lemma groupAny_Ok controls cond cs r s :
  (forall n ch, In (n, ch) cs -> obj_get controls n = Some ch /\ is_Some (store s !! ch)) ->
  _groupAny controls cond cs r s = Ok s (r || existsb (fun nc => child_flag s cond nc.2) cs).
Proof.
  revert r. induction cs as [|[n ch] cs IH]; intros r H; simpl.
  - rewrite orb_false_r. reflexivity.
  - destruct (H n ch (or_introl eq_refl)) as [Ho [cc Hcc]].
    assert (H' : forall n' ch', In (n', ch') cs ->
                 obj_get controls n' = Some ch' /\ is_Some (store s !! ch'))
      by (intros; apply H; right; assumption).
    destruct r.
    + rewrite bind_ret, IH by exact H'. reflexivity.
    + unfold contains. rewrite Ho. unfold bind, get_control, ret. rewrite Hcc.
      destruct (enabled cc) eqn:He; simpl; rewrite ?Hcc;
        rewrite IH by exact H'; unfold child_flag; rewrite Hcc, He; reflexivity.
Qed.

(* ------------------------------------------------------------------ *)
(** ** What a leaf keeps *)

Lemma leaf_kept_refl id s : leaf_kept id s s.
Proof. intros c Hc Hk. exists c. repeat split; assumption. Qed.

Lemma leaf_kept_trans id s1 s2 s3 :
  leaf_kept id s1 s2 -> leaf_kept id s2 s3 -> leaf_kept id s1 s3.
Proof.
  intros H1 H2 c Hc Hk. destruct (H1 c Hc Hk) as (c2 & E2 & K2 & P2 & V2 & Pr2 & T2).
  destruct (H2 c2 E2 K2) as (c3 & E3 & K3 & P3 & V3 & Pr3 & T3).
  exists c3. repeat split; congruence.
Qed.

Lemma leaf_kept_modify id p f :
  p <> id \/ (forall c, kind (f c) = kind c /\ _parent (f c) = _parent c /\
                value (f c) = value c /\ pristine (f c) = pristine c /\ touched (f c) = touched c) ->
  preserves (leaf_kept id) (modify p f).
Proof.
  intros Hf s c Hc Hk. unfold modify.
  destruct (store s !! p) as [cp|] eqn:Ep; simpl; [|exists c; repeat split; assumption].
  destruct (decide (p = id)) as [->|Hne].
  - destruct Hf as [Hf|Hf]; [congruence|]. rewrite Hc in Ep. injection Ep as <-.
    destruct (Hf c) as (K & P & V & Pr & T). exists (f c). rewrite lookup_insert_eq.
    repeat split; congruence.
  - exists c. rewrite lookup_insert_ne by congruence. repeat split; assumption.
Qed.

Lemma leaf_kept_emit id e : preserves (leaf_kept id) (emit e).
Proof. intros s c Hc Hk. exists c. simpl. repeat split; assumption. Qed.

(** A step that reads a control may use what it read. *)
Lemma preserves_bind_get_control {A} (P : state -> state -> Prop)
    (P_refl : forall s, P s s) id (k : AbstractControl -> M A) :
  (forall c s, store s !! id = Some c -> P s (res_state (k c s))) ->
  preserves P (bind (get_control id) k).
Proof.
  intros Hk s. unfold bind, get_control.
  destruct (store s !! id) as [c|] eqn:E; [exact (Hk c s E) | apply P_refl].
Qed.

Lemma modify_Some id f s c :
  store s !! id = Some c ->
  modify id f s = Ok (mkState (<[id := f c]> (store s)) (log s) (fresh s)) tt.
Proof. intros Hc. unfold modify. rewrite Hc. reflexivity. Qed.

Lemma bind_modify_Some {A} id f (k : unit -> M A) s c :
  store s !! id = Some c ->
  bind (modify id f) k s = k tt (mkState (<[id := f c]> (store s)) (log s) (fresh s)).
Proof. intros Hc. unfold bind, modify. rewrite Hc. reflexivity. Qed.

Ltac lk_step :=
  lazymatch goal with
  | |- preserves _ (bind (ret _) _) => rewrite bind_ret; simpl
  | |- preserves _ (bind _ _) => apply (preserves_bind _ (leaf_kept_trans _)); [|intros ?]
  | |- preserves _ (modify _ _) =>
      apply leaf_kept_modify; first [left; assumption | right; intros; simpl; repeat split]
  | |- preserves _ (emit _) => apply leaf_kept_emit
  | |- preserves _ (match ?x with _ => _ end) => destruct x
  | |- preserves _ (if ?b then _ else _) => destruct b
  | |- preserves _ _ => apply (reader_preserves _ (leaf_kept_refl _)); solve_reader
  end.

Section LeafKept.
Variable validatorFns : nat -> gmap cid AbstractControl -> cid -> option ValidationErrors.

(** [_updateValue] writes a value on a composite only. *)
Lemma lk__updateValue id p : preserves (leaf_kept id) (_updateValue p).
Proof.
  unfold _updateValue. apply (preserves_bind_get_control _ (leaf_kept_refl id)).
  intros c s Hc. destruct (kind c) as [|cs|cs] eqn:Hk; [apply leaf_kept_refl| |];
    (destruct (decide (p = id)) as [->|Hne];
     [intros c0 Hc0 Hk0; rewrite Hc in Hc0; injection Hc0 as <-; congruence|]);
    match goal with |- leaf_kept id s (res_state (?m s)) =>
      assert (HP : preserves (leaf_kept id) m) by repeat lk_step; exact (HP s) end.
Qed.

Lemma lk_updateValueAndValidity id fuel p o :
  preserves (leaf_kept id) (updateValueAndValidity validatorFns fuel p o).
Proof.
  revert p o. induction fuel as [|f IH]; intros p o; simpl; [lk_step|].
  unfold setInitialStatus, _cancelExistingSubscription, _runAsyncValidator.
  repeat (apply IH || apply lk__updateValue || lk_step).
Qed.

End LeafKept.

(* ------------------------------------------------------------------ *)
(** ** The status computation of a group *)

Lemma reader_Ok {A} (m : M A) s s' a : reader m -> m s = Ok s' a -> s' = s.
Proof. intros Hm E. specialize (Hm s). rewrite E in Hm. exact Hm. Qed.

Lemma existsb_map_snd (f : cid -> bool) (cs : list (string * cid)) :
  existsb f (map snd cs) = existsb (fun nc => f nc.2) cs.
Proof. induction cs as [|nc cs IH]; simpl; [reflexivity | rewrite IH; reflexivity]. Qed.

Lemma someEnabled_Ok chs s :
  (forall ch, In ch chs -> is_Some (store s !! ch)) ->
  _someEnabled chs s = Ok s (existsb (child_flag s (fun _ => true)) chs).
Proof.
  induction chs as [|ch chs IH]; intros H; simpl; [reflexivity|].
  destruct (H ch (or_introl eq_refl)) as [cc Hcc].
  rewrite (bind_get_control _ cc) by exact Hcc. unfold child_flag at 1. rewrite Hcc.
  destruct (enabled cc); simpl; [reflexivity|]. apply IH. intros; apply H; right; assumption.
Qed.

Lemma existsb_child_flag_same s s' g P chs :
  (forall j, j <> g -> store s' !! j = store s !! j) -> (forall ch, In ch chs -> ch <> g) ->
  existsb (child_flag s' P) chs = existsb (child_flag s P) chs.
Proof.
  intros Hs Hg. induction chs as [|ch chs IH]; simpl; [reflexivity|].
  unfold child_flag at 1 3. rewrite Hs by (apply Hg; left; reflexivity).
  rewrite IH by (intros; apply Hg; right; assumption). reflexivity.
Qed.

Lemma spec_composite_status_same s s' g chs d e :
  (forall j, j <> g -> store s' !! j = store s !! j) -> (forall ch, In ch chs -> ch <> g) ->
  spec_composite_status s' chs d e = spec_composite_status s chs d e.
Proof.
  intros Hs Hg. unfold spec_composite_status.
  rewrite !(existsb_child_flag_same s s' g _ chs Hs Hg). reflexivity.
Qed.

(** [_calculateStatus] on a group follows the rule of the spec, read
    with the group's own [disabled] and [errors]. *)
Lemma calculateStatus_group s g c cs :
  store s !! g = Some c -> kind c = KGroup cs -> NoDup (map fst cs) ->
  (forall n ch, In (n, ch) cs -> is_Some (store s !! ch)) ->
  _calculateStatus g s = Ok s (spec_composite_status s (map snd cs) (disabled c) (errors c)).
Proof.
  intros Hc Hk Hnd Hch.
  assert (HA : forall cond, _anyControls g cond s =
                            Ok s (existsb (child_flag s cond) (map snd cs))).
  { intros cond. unfold _anyControls. rewrite (bind_get_control _ c) by exact Hc. rewrite Hk.
    rewrite groupAny_Ok, existsb_map_snd; [reflexivity|].
    intros n ch Hin. split; [apply obj_get_NoDup_In|apply (Hch n)]; assumption. }
  assert (HE : _someEnabled (map snd cs) s =
               Ok s (existsb (child_flag s (fun _ => true)) (map snd cs))).
  { apply someEnabled_Ok. intros ch Hin. apply in_map_iff in Hin as ([n ch'] & <- & Hin).
    exact (Hch n ch' Hin). }
  assert (HD : _allControlsDisabled g s =
    Ok s (if existsb (child_flag s (fun _ => true)) (map snd cs) then false
          else negb (length cs =? 0) || disabled c)).
  { unfold _allControlsDisabled. rewrite (bind_get_control _ c) by exact Hc. rewrite Hk.
    rewrite (bind_Ok _ _ _ _ _ HE). reflexivity. }
  unfold _calculateStatus, _anyControlsHaveStatus, spec_composite_status.
  rewrite (bind_Ok _ _ _ _ _ HD), length_map.
  destruct (existsb (child_flag s (fun _ => true)) (map snd cs));
    [|destruct (negb (length cs =? 0) || disabled c); [reflexivity|]];
    cbn [negb andb orb];
    rewrite (bind_get_control _ c) by exact Hc; cbn beta;
    (destruct (errors c); [reflexivity|]);
    rewrite (bind_Ok _ _ _ _ _ (HA _)); cbn beta;
    (destruct (existsb (child_flag s (fun cc => FieldStatus_eqb (status cc) PENDING)) (map snd cs));
     [reflexivity|]);
    rewrite (bind_Ok _ _ _ _ _ (HA _)); cbn beta;
    destruct (existsb (child_flag s (fun cc => FieldStatus_eqb (status cc) INVALID)) (map snd cs));
    reflexivity.
Qed.

Lemma get_updateOn_own f g s c h :
  store s !! g = Some c -> _updateOn c = Some h -> get_updateOn (S f) g s = Ok s h.
Proof. intros Hc Hh. simpl. rewrite (bind_get_control _ c) by exact Hc. rewrite Hh. reflexivity. Qed.

(** [_updateValue] on a group writes its value and nothing else. *)
Lemma updateValue_group_Ok s s' u g c cs :
  store s !! g = Some c -> kind c = KGroup cs -> _updateValue g s = Ok s' u ->
  exists v, s' = mkState (<[g := set_value v c]> (store s)) (log s) (fresh s).
Proof.
  intros Hc Hk H. unfold _updateValue in H. rewrite (bind_get_control _ c) in H by exact Hc.
  rewrite Hk in H. apply bind_Ok_inv in H as (s1 & v & H1 & H).
  apply (reader_Ok _ _ _ _ (reader__reduceValue _ _ _)) in H1 as ->.
  rewrite modify_Some with (c := c) in H by exact Hc. injection H as <- _. eexists. reflexivity.
Qed.

(* ------------------------------------------------------------------ *)
(** ** Frames along the parent links *)

Lemma parents_same_refl s : parents_same s s.
Proof. intros j. reflexivity. Qed.

Lemma parents_same_trans s1 s2 s3 :
  parents_same s1 s2 -> parents_same s2 s3 -> parents_same s1 s3.
Proof. intros H1 H2 j. rewrite H2. apply H1. Qed.

Lemma parents_same_insert s j c c' l n :
  store s !! j = Some c -> _parent c' = _parent c ->
  parents_same s (mkState (<[j := c']> (store s)) l n).
Proof.
  intros Hc Hp k. simpl. destruct (decide (k = j)) as [->|Hne].
  - rewrite lookup_insert_eq, Hc. simpl. congruence.
  - rewrite lookup_insert_ne by congruence. reflexivity.
Qed.

Lemma parent_chain_parents_same f s s' j :
  parents_same s s' -> parent_chain f (store s') j = parent_chain f (store s) j.
Proof.
  intros H. revert j. induction f as [|f IH]; intros j; simpl; [reflexivity|].
  f_equal. specialize (H j).
  destruct (store s' !! j) as [c'|], (store s !! j) as [c|]; simpl in H;
    try discriminate; [|reflexivity].
  injection H as H. rewrite H. destruct (_parent c); [apply IH | reflexivity].
Qed.

Lemma frame_outside_refl A s : frame_outside A s s.
Proof. split; [apply parents_same_refl | reflexivity]. Qed.

Lemma frame_outside_trans A s1 s2 s3 :
  frame_outside A s1 s2 -> frame_outside A s2 s3 -> frame_outside A s1 s3.
Proof.
  intros [P1 F1] [P2 F2]. split; [eapply parents_same_trans; eassumption|].
  intros j Hj. rewrite F2, F1 by exact Hj. reflexivity.
Qed.

Lemma frame_outside_mono A B s s' : incl A B -> frame_outside A s s' -> frame_outside B s s'.
Proof. intros HI [P F]. split; [exact P|]. intros j Hj. apply F. intros Hin. apply Hj, HI, Hin. Qed.

Lemma fo_from_refl A s0 s : fo_from A s0 s s.
Proof. intros H. exact H. Qed.

Lemma fo_from_trans A s0 s1 s2 s3 : fo_from A s0 s1 s2 -> fo_from A s0 s2 s3 -> fo_from A s0 s1 s3.
Proof. intros H1 H2 H. exact (H2 (H1 H)). Qed.

Lemma fo_modify A s0 j f :
  In j A -> (forall c, _parent (f c) = _parent c) -> preserves (fo_from A s0) (modify j f).
Proof.
  intros Hj Hf s H. unfold modify. destruct (store s !! j) as [c|] eqn:E; simpl; [|exact H].
  apply (frame_outside_trans A s0 s); [exact H|]. split.
  - apply (parents_same_insert s j c); [exact E | apply Hf].
  - intros k Hk. simpl. rewrite lookup_insert_ne; [reflexivity|]. intros ->. contradiction.
Qed.

Lemma fo_emit A s0 e : preserves (fo_from A s0) (emit e).
Proof. intros s H. exact H. Qed.

Lemma fo_get_control {B} A s0 p (k : AbstractControl -> M B) :
  (forall c s, store s !! p = Some c -> frame_outside A s0 s -> preserves (fo_from A s0) (k c)) ->
  preserves (fo_from A s0) (bind (get_control p) k).
Proof.
  intros H s Hs. unfold bind, get_control.
  destruct (store s !! p) as [c|] eqn:E; [exact (H c s E Hs s Hs) | exact Hs].
Qed.

(** A step up from [p] stays on the parent links of [p]. *)
Lemma chain_step f A s0 s p c q :
  incl (parent_chain (S f) (store s0) p) A -> frame_outside A s0 s ->
  store s !! p = Some c -> _parent c = Some q -> incl (parent_chain f (store s0) q) A.
Proof.
  intros HA [Ps _] Hc Hq. specialize (Ps p). rewrite Hc in Ps.
  destruct (store s0 !! p) as [c0|] eqn:E0; simpl in Ps; [|discriminate].
  injection Ps as Ps. intros x Hx. apply HA. simpl. rewrite E0, <- Ps, Hq. right. exact Hx.
Qed.

Ltac fo_step :=
  first
  [ progress cbn beta iota
  | lazymatch goal with
    | |- preserves _ (bind (ret _) _) => rewrite bind_ret
    | |- preserves _ (bind (get_control _) _) => apply fo_get_control; intros ?c ?s ?Hc ?Hfo
    | |- preserves _ (bind _ _) => apply (preserves_bind _ (fo_from_trans _ _)); [|intros ?]
    | |- preserves _ (modify _ _) => apply fo_modify; [assumption | intros; reflexivity]
    | |- preserves _ (emit _) => apply fo_emit
    | |- preserves _ (match ?x with _ => _ end) => destruct x eqn:?
    | |- preserves _ (if ?b then _ else _) => destruct b
    | |- preserves _ _ => apply (reader_preserves _ (fo_from_refl _ _)); solve_reader
    end ].

Ltac fo_rec IH :=
  match goal with
  | HA : incl (parent_chain (S _) (store ?s0) ?p) ?A, Hc : store ?s !! ?p = Some ?c,
    Hfo : frame_outside ?A ?s0 ?s, Hq : _parent ?c = Some ?q
    |- _ => apply IH; exact (chain_step _ _ _ _ _ _ _ HA Hfo Hc Hq)
  end.

Section Frames.
Variable validatorFns : nat -> gmap cid AbstractControl -> cid -> option ValidationErrors.

(** [updateValueAndValidity] changes the controls on the parent links
    from [p] only, and no parent link. *)
Lemma uVV_frame f : forall p o A s0,
  incl (parent_chain f (store s0) p) A ->
  preserves (fo_from A s0) (updateValueAndValidity validatorFns f p o).
Proof.
  induction f as [|f IH]; intros p o A s0 HA; cbn [updateValueAndValidity]; [repeat fo_step|].
  assert (Hp : In p A) by (apply HA; left; reflexivity).
  unfold setInitialStatus, _updateValue, FormControl__updateValue,
    _cancelExistingSubscription, _runAsyncValidator.
  repeat (lazymatch goal with
          | |- preserves _ (updateValueAndValidity _ _ _ _) => fail
          | |- _ => fo_step end).
  all: fo_rec IH.
Qed.

Lemma updatePristine_frame f : forall p o A s0,
  incl (parent_chain f (store s0) p) A -> preserves (fo_from A s0) (_updatePristine f p o).
Proof.
  induction f as [|f IH]; intros p o A s0 HA; cbn [_updatePristine]; [repeat fo_step|].
  assert (Hp : In p A) by (apply HA; left; reflexivity).
  repeat (lazymatch goal with
          | |- preserves _ (_updatePristine _ _ _) => fail
          | |- _ => fo_step end).
  all: fo_rec IH.
Qed.

Lemma updateTouched_frame f : forall p o A s0,
  incl (parent_chain f (store s0) p) A -> preserves (fo_from A s0) (_updateTouched f p o).
Proof.
  induction f as [|f IH]; intros p o A s0 HA; cbn [_updateTouched]; [repeat fo_step|].
  assert (Hp : In p A) by (apply HA; left; reflexivity).
  repeat (lazymatch goal with
          | |- preserves _ (_updateTouched _ _ _) => fail
          | |- _ => fo_step end).
  all: fo_rec IH.
Qed.
End Frames.

(** A run in a frame leaves the records outside it as they were. *)
Lemma fo_from_run {B} A s (m : M B) s' b :
  preserves (fo_from A s) m -> m s = Ok s' b -> frame_outside A s s'.
Proof. intros H E. specialize (H s). rewrite E in H. exact (H (frame_outside_refl A s)). Qed.

(* ------------------------------------------------------------------ *)
(** ** Frames over a subtree *)

Lemma kinds_same_refl s : kinds_same s s.
Proof. intros j. reflexivity. Qed.

Lemma frame_sub_refl A s : frame_sub A s s.
Proof. split; [apply kinds_same_refl | reflexivity]. Qed.

Lemma frame_sub_trans A s1 s2 s3 :
  frame_sub A s1 s2 -> frame_sub A s2 s3 -> frame_sub A s1 s3.
Proof.
  intros [K1 F1] [K2 F2]. split; [intros j; rewrite K2; apply K1|].
  intros j Hj. rewrite F2, F1 by exact Hj. reflexivity.
Qed.

Lemma frame_sub_mono A B s s' : incl A B -> frame_sub A s s' -> frame_sub B s s'.
Proof. intros HI [K F]. split; [exact K|]. intros j Hj. apply F. intros Hin. apply Hj, HI, Hin. Qed.

Lemma children_of_kind c c' : kind c' = kind c -> children_of c' = children_of c.
Proof. intros H. unfold children_of. rewrite H. reflexivity. Qed.

Lemma subtree_kinds_same f s s' j :
  kinds_same s s' -> subtree f (store s') j = subtree f (store s) j.
Proof.
  intros H. revert j. induction f as [|f IH]; intros j; simpl; [reflexivity|].
  f_equal. specialize (H j).
  destruct (store s' !! j) as [c'|], (store s !! j) as [c|]; simpl in H;
    try discriminate; [|reflexivity].
  injection H as H. rewrite (children_of_kind c c' H). apply flat_map_ext. intros x. apply IH.
Qed.

Lemma fs_from_refl A s0 s : fs_from A s0 s s.
Proof. intros H. exact H. Qed.

Lemma fs_from_trans A s0 s1 s2 s3 : fs_from A s0 s1 s2 -> fs_from A s0 s2 s3 -> fs_from A s0 s1 s3.
Proof. intros H1 H2 H. exact (H2 (H1 H)). Qed.

Lemma fs_modify A s0 j f :
  In j A -> (forall c, kind (f c) = kind c) -> preserves (fs_from A s0) (modify j f).
Proof.
  intros Hj Hf s H. unfold modify. destruct (store s !! j) as [c|] eqn:E; simpl; [|exact H].
  apply (frame_sub_trans A s0 s); [exact H|]. split.
  - intros k. simpl. destruct (decide (k = j)) as [->|Hne].
    + rewrite lookup_insert_eq, E. simpl. rewrite Hf. reflexivity.
    + rewrite lookup_insert_ne by congruence. reflexivity.
  - intros k Hk. simpl. rewrite lookup_insert_ne; [reflexivity|]. intros ->. contradiction.
Qed.

Lemma fs_emit A s0 e : preserves (fs_from A s0) (emit e).
Proof. intros s H. exact H. Qed.

Lemma fs_get_control {B} A s0 p (k : AbstractControl -> M B) :
  (forall c s, store s !! p = Some c -> frame_sub A s0 s -> preserves (fs_from A s0) (k c)) ->
  preserves (fs_from A s0) (bind (get_control p) k).
Proof.
  intros H s Hs. unfold bind, get_control.
  destruct (store s !! p) as [c|] eqn:E; [exact (H c s E Hs s Hs) | exact Hs].
Qed.

Lemma preserves_for_each_In {A} (P : state -> state -> Prop)
    (P_refl : forall s, P s s) (P_trans : forall s1 s2 s3, P s1 s2 -> P s2 s3 -> P s1 s3)
    (l : list A) (F : A -> M unit) :
  (forall x, In x l -> preserves P (F x)) -> preserves P (for_each l F).
Proof.
  intros HF. induction l as [|x l IH]; simpl.
  - apply (reader_preserves _ P_refl), reader_ret.
  - apply (preserves_bind _ P_trans); [apply HF; left; reflexivity | intros _].
    apply IH. intros y Hy. apply HF. right. exact Hy.
Qed.

(** A child of [ch] has its subtree inside the subtree of [ch]. *)
Lemma subtree_child f A s0 s ch c x :
  incl (subtree (S f) (store s0) ch) A -> frame_sub A s0 s ->
  store s !! ch = Some c -> In x (children_of c) -> incl (subtree f (store s0) x) A.
Proof.
  intros HA [K _] Hc Hx. specialize (K ch). rewrite Hc in K.
  destruct (store s0 !! ch) as [c0|] eqn:E0; simpl in K; [|discriminate].
  injection K as K. rewrite (children_of_kind c0 c K) in Hx.
  intros y Hy. apply HA. simpl. rewrite E0. right. apply in_flat_map. eauto.
Qed.

Ltac fs_step :=
  first
  [ progress cbn beta iota
  | lazymatch goal with
    | |- preserves _ (bind (ret _) _) => rewrite bind_ret
    | |- preserves _ (bind (get_control _) _) => apply fs_get_control; intros ?c ?s ?Hc ?Hfs
    | |- preserves _ (bind _ _) => apply (preserves_bind _ (fs_from_trans _ _)); [|intros ?]
    | |- preserves _ (modify _ _) => apply fs_modify; [assumption | intros; reflexivity]
    | |- preserves _ (emit _) => apply fs_emit
    | |- preserves _ (for_each _ _) =>
        apply (preserves_for_each_In _ (fs_from_refl _ _) (fs_from_trans _ _)); intros ?x ?Hx
    | |- preserves _ (match ?x with _ => _ end) => destruct x eqn:?
    | |- preserves _ (if ?b then _ else _) => destruct b
    | |- preserves _ _ => apply (reader_preserves _ (fs_from_refl _ _)); solve_reader
    end ].

Section SubFrames.
Variable validatorFns : nat -> gmap cid AbstractControl -> cid -> option ValidationErrors.

(** With [onlySelf: true], [updateValueAndValidity] changes the record
    of [id] only, and not its kind. *)
Lemma uVV_onlySelf_frame f id e A s0 :
  In id A -> preserves (fs_from A s0)
    (updateValueAndValidity validatorFns f id (Some (mkOpts (Some true) e))).
Proof.
  intros Hid. destruct f as [|f]; cbn [updateValueAndValidity]; [repeat fs_step|].
  unfold setInitialStatus, _updateValue, FormControl__updateValue,
    _cancelExistingSubscription, _runAsyncValidator.
  cbn [opt_truthy onlySelf]. repeat fs_step.
Qed.

(** A child's [enable({onlySelf: true})] changes the controls of its
    subtree only. *)
Lemma enable_child_frame f : forall ch A s0,
  incl (subtree f (store s0) ch) A -> preserves (fs_from A s0) (enable validatorFns f ch child_opts).
Proof.
  induction f as [|f IH]; intros ch A s0 HA; cbn [enable]; [repeat fs_step|].
  assert (Hch : In ch A) by (apply HA; left; reflexivity).
  apply (preserves_bind _ (fs_from_trans _ _)); [fs_step|intros _].
  apply fs_get_control. intros c s Hc Hfs.
  apply (preserves_bind _ (fs_from_trans _ _)).
  - apply (preserves_for_each_In _ (fs_from_refl _ _) (fs_from_trans _ _)). intros x Hx.
    apply IH. exact (subtree_child _ _ _ _ _ _ _ HA Hfs Hc Hx).
  - intros _. unfold child_opts. cbn [deref_opts]. rewrite bind_ret.
    apply (preserves_bind _ (fs_from_trans _ _)); [apply uVV_onlySelf_frame, Hch|intros _].
    unfold _updateAncestors. cbn [opt_truthy onlySelf]. repeat fs_step.
Qed.
End SubFrames.

(* ------------------------------------------------------------------ *)
(** ** Disabling the children of a complete tree *)

Lemma complete_tree_present f st j : complete_tree f st j = true -> is_Some (st !! j).
Proof. destruct f as [|f]; simpl; [discriminate|]. destruct (st !! j); [eauto|discriminate]. Qed.

Lemma complete_tree_shape f s s' j :
  shape_kept s s' -> complete_tree f (store s) j = true -> complete_tree f (store s') j = true.
Proof.
  intros H. revert j. induction f as [|f IH]; intros j; simpl; [discriminate|].
  destruct (store s !! j) as [c|] eqn:E; [|discriminate]. intros Hf.
  destruct (H j c E) as (c' & E' & K & _). rewrite E', (children_of_kind c c' K).
  apply forallb_forall. intros x Hx. apply IH. exact (proj1 (forallb_forall _ _) Hf x Hx).
Qed.

Lemma reduceValue_Ok d cs acc s :
  (forall x, In x (map snd cs) -> is_Some (store s !! x)) ->
  exists v, _reduceValue d cs acc s = Ok s v.
Proof.
  revert acc. induction cs as [|[n ch] cs IH]; intros acc H; simpl; [eauto|].
  destruct (H ch (or_introl eq_refl)) as [cc Hcc]. rewrite (bind_get_control _ cc) by exact Hcc.
  apply IH. intros x Hx. apply H. right. exact Hx.
Qed.

Lemma arrayValue_Ok d cs s :
  (forall x, In x cs -> is_Some (store s !! x)) -> exists v, _arrayValue d cs s = Ok s v.
Proof.
  induction cs as [|ch cs IH]; intros H; simpl; [eauto|].
  destruct (H ch (or_introl eq_refl)) as [cc Hcc]. rewrite (bind_get_control _ cc) by exact Hcc.
  destruct IH as [v Hv]; [intros x Hx; apply H; right; exact Hx|].
  rewrite (bind_Ok _ _ _ _ _ Hv). eauto.
Qed.

(** [_updateValue] completes when the children are in the heap. *)
Lemma updateValue_Ok s g c :
  store s !! g = Some c -> (forall x, In x (children_of c) -> is_Some (store s !! x)) ->
  exists s', _updateValue g s = Ok s' tt.
Proof.
  intros Hc H. unfold _updateValue. rewrite (bind_get_control _ c) by exact Hc.
  unfold children_of in H. destruct (kind c) as [|cs|cs].
  - eexists. reflexivity.
  - destruct (reduceValue_Ok (disabled c) cs [] s H) as [v Hv]. rewrite (bind_Ok _ _ _ _ _ Hv).
    unfold modify. rewrite Hc. eexists. reflexivity.
  - destruct (arrayValue_Ok (disabled c) cs s H) as [v Hv]. rewrite (bind_Ok _ _ _ _ _ Hv).
    unfold modify. rewrite Hc. eexists. reflexivity.
Qed.

Lemma for_each_Ok_all {X} (Q : state -> X -> Prop) (F : X -> M unit) l :
  (forall s s', shape_kept s s' -> forall x, Q s x -> Q s' x) ->
  (forall x s, Q s x -> exists s', F x s = Ok s' tt /\ shape_kept s s') ->
  forall s, (forall x, In x l -> Q s x) -> exists s', for_each l F s = Ok s' tt /\ shape_kept s s'.
Proof.
  intros HQ HF. induction l as [|x l IH]; intros s Hl; simpl.
  - exists s. split; [reflexivity | apply shape_kept_refl].
  - destruct (HF x s (Hl x (or_introl eq_refl))) as (s1 & E1 & K1).
    rewrite (bind_Ok _ _ _ _ _ E1).
    destruct (IH s1) as (s' & E & K); [intros y Hy; apply (HQ s s1 K1), Hl; right; exact Hy|].
    exists s'. split; [exact E | exact (shape_kept_trans _ _ _ K1 K)].
Qed.

Lemma sd__updateValue id p : preserves (stays_disabled id) (_updateValue p).
Proof. unfold _updateValue, FormControl__updateValue. repeat sd_step. Qed.

Section DisableOk.
Variable validatorFns : nat -> gmap cid AbstractControl -> cid -> option ValidationErrors.

(** A child's [disable({onlySelf: true})] completes on a complete tree. *)
Lemma disable_child_Ok f : forall ch s, complete_tree f (store s) ch = true ->
  exists s', disable validatorFns f ch child_opts s = Ok s' tt /\ shape_kept s s'.
Proof.
  induction f as [|f IH]; intros ch s H; [discriminate|].
  cut (exists s', disable validatorFns (S f) ch child_opts s = Ok s' tt).
  { intros [s' E]. exists s'. split; [exact E|]. exact (preserves_Ok _ _ _ _ _ (kk_disable _ _ _ _) E). }
  simpl in H. destruct (store s !! ch) as [c|] eqn:Hc; [|discriminate].
  cbn [disable]. rewrite (bind_modify_Some _ _ _ _ c) by exact Hc.
  rewrite (bind_modify_Some _ _ _ _ (set_status DISABLED c)) by (simpl; apply lookup_insert_eq).
  rewrite (bind_get_control _ (set_errors None (set_status DISABLED c))) by (simpl; apply lookup_insert_eq).
  change (children_of (set_errors None (set_status DISABLED c))) with (children_of c).
  match goal with |- exists s', bind _ _ ?st = _ => set (s2 := st) end.
  assert (K2 : shape_kept s s2).
  { intros j cj Ej. unfold s2. simpl. destruct (decide (j = ch)) as [->|Hne].
    - rewrite lookup_insert_eq. rewrite Hc in Ej. injection Ej as <-. eexists. split; [reflexivity|].
      repeat split.
    - rewrite !lookup_insert_ne by congruence. exists cj. split; [exact Ej|]. repeat split. }
  destruct (for_each_Ok_all (fun s x => complete_tree f (store s) x = true)
              (fun ch => disable validatorFns f ch child_opts) (children_of c))
    with (s := s2) as (s3 & E3 & K3).
  { intros s0 s0' K x. apply complete_tree_shape, K. }
  { intros x s0 Hx. apply IH, Hx. }
  { intros x Hx. apply (complete_tree_shape _ s), (proj1 (forallb_forall _ _) H x Hx). exact K2. }
  rewrite (bind_Ok _ _ _ _ _ E3).
  destruct (shape_kept_trans _ _ _ K2 K3 ch c Hc) as (c3 & E3c & Kc3 & _).
  destruct (updateValue_Ok s3 ch c3) as (s4 & E4); [exact E3c| |].
  { intros x Hx. rewrite (children_of_kind c c3 Kc3) in Hx.
    apply (complete_tree_present f). apply (complete_tree_shape _ s), (proj1 (forallb_forall _ _) H x Hx).
    exact (shape_kept_trans _ _ _ K2 K3). }
  rewrite (bind_Ok _ _ _ _ _ E4).
  destruct (preserves_Ok _ _ _ _ _ (kk__updateValue _) E4 ch c3 E3c) as (c4 & E4c & _).
  unfold child_opts. cbn [deref_opts]. rewrite bind_ret. rewrite (bind_get_control _ c4) by exact E4c.
  cbn [opt_truthy onlySelf emitEvent not_false].
  unfold _updateAncestors, bind, emit, get_control. simpl. rewrite E4c.
  destruct (_parent c4); eexists; reflexivity.
Qed.

(** After a child's [disable({onlySelf: true})], the child is [DISABLED]
    with no errors, however the call ends. *)
Lemma disable_child_clears f x s c :
  store s !! x = Some c -> disabled_clear x (res_state (disable validatorFns (S f) x child_opts s)).
Proof.
  intros Hc. cbn [disable]. rewrite (bind_modify_Some _ _ _ _ c) by exact Hc.
  rewrite (bind_modify_Some _ _ _ _ (set_status DISABLED c)) by (simpl; apply lookup_insert_eq).
  match goal with |- disabled_clear x (res_state (?m ?s2)) =>
    assert (HR : preserves (stays_disabled x) m); [cbv beta|apply (HR s2)] end.
  - unfold _updateValue, FormControl__updateValue, child_opts. cbn [deref_opts].
    rewrite !bind_ret. cbn [opt_truthy onlySelf].
    repeat (apply sd_disable_child
            || (apply (reader_preserves _ (stays_disabled_refl _)), reader__updateAncestors_onlySelf)
            || sd_step).
  - exists (set_errors None (set_status DISABLED c)). simpl. rewrite lookup_insert_eq. auto.
Qed.

(** Disabling the children of a complete tree one after the other
    completes and leaves each of them [DISABLED] with no errors. *)
Lemma for_each_disable_children f l : forall s,
  (forall x, In x l -> complete_tree f (store s) x = true) ->
  exists s', for_each l (fun ch => disable validatorFns f ch child_opts) s = Ok s' tt /\
    shape_kept s s' /\ (forall x, In x l -> disabled_clear x s') /\
    (forall j, stays_disabled j s s').
Proof.
  induction l as [|x l IH]; intros s Hl; simpl.
  - exists s. split; [reflexivity|]. split; [apply shape_kept_refl|]. split; [intros _ []|].
    intros j; apply stays_disabled_refl.
  - pose proof (Hl x (or_introl eq_refl)) as Hx.
    destruct (disable_child_Ok f x s Hx) as (s1 & E1 & K1).
    destruct f as [|f]; [discriminate|].
    destruct (complete_tree_present _ _ _ Hx) as [cx Hcx].
    pose proof (disable_child_clears f x s cx Hcx) as D1. rewrite E1 in D1.
    rewrite (bind_Ok _ _ _ _ _ E1).
    destruct (IH s1) as (s' & E & K & Hd & Hs).
    { intros y Hy. apply (complete_tree_shape _ s _ _ K1), Hl. right. exact Hy. }
    exists s'. split; [exact E|]. split; [exact (shape_kept_trans _ _ _ K1 K)|]. split.
    + intros y [<-|Hy]; [exact (Hs x D1) | exact (Hd y Hy)].
    + intros j Hj. apply Hs. pose proof (sd_disable_child validatorFns j (S f) x s Hj) as H1.
      rewrite E1 in H1. exact H1.
Qed.
End DisableOk.

(* ------------------------------------------------------------------ *)
(** ** The status computation of a composite *)

Lemma arrayAny_Ok cond cs s :
  (forall ch, In ch cs -> is_Some (store s !! ch)) ->
  _arrayAny cond cs s = Ok s (existsb (child_flag s cond) cs).
Proof.
  induction cs as [|ch cs IH]; intros H; simpl; [reflexivity|].
  destruct (H ch (or_introl eq_refl)) as [cc Hcc].
  rewrite (bind_get_control _ cc) by exact Hcc. unfold child_flag at 1. rewrite Hcc.
  destruct (enabled cc && cond cc); simpl; [reflexivity|]. apply IH. intros; apply H; right; assumption.
Qed.

(** [_calculateStatus] on a [FormGroup] or a [FormArray] follows the
    rule of the spec, read with the composite's own [disabled] and
    [errors]. *)
Lemma calculateStatus_composite s g c :
  store s !! g = Some c -> composite_kind (kind c) ->
  (forall ch, In ch (children_of c) -> is_Some (store s !! ch)) ->
  _calculateStatus g s = Ok s (spec_composite_status s (children_of c) (disabled c) (errors c)).
Proof.
  intros Hc Hk Hch. unfold children_of in *. destruct (kind c) as [|cs|cs] eqn:Ek; [contradiction| |].
  - apply (calculateStatus_group s g c cs Hc Ek Hk). intros n ch Hin. apply Hch.
    apply in_map_iff. exists (n, ch). auto.
  - assert (HA : forall cond, _anyControls g cond s = Ok s (existsb (child_flag s cond) cs)).
    { intros cond. unfold _anyControls. rewrite (bind_get_control _ c) by exact Hc. rewrite Ek.
      apply arrayAny_Ok, Hch. }
    assert (HE : _someEnabled cs s = Ok s (existsb (child_flag s (fun _ => true)) cs))
      by (apply someEnabled_Ok, Hch).
    assert (HD : _allControlsDisabled g s =
      Ok s (if existsb (child_flag s (fun _ => true)) cs then false
            else negb (length cs =? 0) || disabled c)).
    { unfold _allControlsDisabled. rewrite (bind_get_control _ c) by exact Hc. rewrite Ek.
      rewrite (bind_Ok _ _ _ _ _ HE). reflexivity. }
    unfold _calculateStatus, _anyControlsHaveStatus, spec_composite_status.
    rewrite (bind_Ok _ _ _ _ _ HD).
    destruct (existsb (child_flag s (fun _ => true)) cs);
      [|destruct (negb (length cs =? 0) || disabled c); [reflexivity|]];
      cbn [negb andb orb];
      rewrite (bind_get_control _ c) by exact Hc; cbn beta;
      (destruct (errors c); [reflexivity|]);
      rewrite (bind_Ok _ _ _ _ _ (HA _)); cbn beta;
      (destruct (existsb (child_flag s (fun cc => FieldStatus_eqb (status cc) PENDING)) cs);
       [reflexivity|]);
      rewrite (bind_Ok _ _ _ _ _ (HA _)); cbn beta;
      destruct (existsb (child_flag s (fun cc => FieldStatus_eqb (status cc) INVALID)) cs);
      reflexivity.
Qed.

(** [_updateValue] on a composite writes its value and nothing else. *)
Lemma updateValue_composite_Ok s s' u g c :
  store s !! g = Some c -> composite_kind (kind c) -> _updateValue g s = Ok s' u ->
  exists v, s' = mkState (<[g := set_value v c]> (store s)) (log s) (fresh s).
Proof.
  intros Hc Hk H. unfold _updateValue in H. rewrite (bind_get_control _ c) in H by exact Hc.
  destruct (kind c) as [|cs|cs]; [contradiction| |];
    apply bind_Ok_inv in H as (s1 & v & H1 & H);
    [apply (reader_Ok _ _ _ _ (reader__reduceValue _ _ _)) in H1 as ->
    |apply (reader_Ok _ _ _ _ (reader__arrayValue _ _)) in H1 as ->];
    rewrite modify_Some with (c := c) in H by exact Hc; injection H as <- _; eexists; reflexivity.
Qed.

Lemma existsb_child_flag_eq s s' P chs :
  (forall ch, In ch chs -> store s' !! ch = store s !! ch) ->
  existsb (child_flag s' P) chs = existsb (child_flag s P) chs.
Proof.
  intros Hs. induction chs as [|ch chs IH]; simpl; [reflexivity|].
  unfold child_flag at 1 3. rewrite Hs by (left; reflexivity).
  rewrite IH by (intros; apply Hs; right; assumption). reflexivity.
Qed.

Lemma spec_composite_status_eq s s' chs d e :
  (forall ch, In ch chs -> store s' !! ch = store s !! ch) ->
  spec_composite_status s' chs d e = spec_composite_status s chs d e.
Proof.
  intros Hs. unfold spec_composite_status. rewrite !(existsb_child_flag_eq s s' _ chs Hs).
  reflexivity.
Qed.

(** The run after a composite's own validation stays on its ancestors. *)
Lemma tail_incl f s s1 sY g c cY q :
  store s !! g = Some c -> parents_same s s1 ->
  frame_outside (ancestors (S f) (store s) g) s1 sY ->
  store sY !! g = Some cY -> _parent cY = Some q ->
  incl (parent_chain f (store s1) q) (ancestors (S f) (store s) g).
Proof.
  intros Hc Hps [Ps _] EY Hq. pose proof (Ps g) as P1. pose proof (Hps g) as P2.
  rewrite EY in P1. rewrite <- P1 in P2. rewrite Hc in P2. simpl in P2. injection P2 as P2.
  unfold ancestors. simpl. rewrite Hc, <- P2, Hq.
  rewrite (parent_chain_parents_same f s s1 q Hps). apply incl_refl.
Qed.

Lemma ancestors_parents_same f s s' j :
  parents_same s s' -> ancestors f (store s') j = ancestors f (store s) j.
Proof. intros H. unfold ancestors. rewrite (parent_chain_parents_same f s s' j H). reflexivity. Qed.

Ltac ps_tac id Hc :=
  let j := fresh "j" in
  intros j; simpl; destruct (decide (j = id)) as [->|?];
  [rewrite !lookup_insert_eq, Hc; reflexivity | rewrite !lookup_insert_ne by congruence; reflexivity].

(** [markAsPristine({})] on a leaf that is not its own ancestor marks it
    pristine and changes only its ancestors besides. *)
Lemma markAsPristine_leaf f id s c s' u :
  store s !! id = Some c -> kind c = KControl -> ~ In id (ancestors (S f) (store s) id) ->
  markAsPristine (S f) id (Some no_opts) s = Ok s' u ->
  store s' !! id = Some (set_pendingDirty false (set_pristine true c)) /\ parents_same s s'.
Proof.
  intros Hc Hk Ha H. cbn [markAsPristine] in H.
  erewrite bind_modify_Some in H by exact Hc.
  erewrite bind_modify_Some in H by (simpl; apply lookup_insert_eq).
  cbv beta in H. cbn [emitEvent opt_truthy no_opts] in H. rewrite bind_ret in H.
  match type of H with _ ?st = _ => set (s1 := st) in H end.
  assert (E1 : store s1 !! id = Some (set_pendingDirty false (set_pristine true c)))
    by (simpl; apply lookup_insert_eq).
  assert (P1 : parents_same s s1) by ps_tac id Hc.
  clearbody s1. rewrite (bind_get_control _ _) in H by exact E1. cbv beta in H.
  assert (Hch : children_of (set_pendingDirty false (set_pristine true c)) = [])
    by (unfold children_of; simpl; rewrite Hk; reflexivity).
  rewrite Hch in H. cbn [for_each] in H. rewrite bind_ret in H.
  change (_parent (set_pendingDirty false (set_pristine true c))) with (_parent c) in H.
  destruct (_parent c) as [p|] eqn:Hp.
  - cbn [onlySelf opt_truthy no_opts] in H.
    destruct (fo_from_run _ _ _ _ _ (updatePristine_frame f p (Some no_opts) _ s1 (incl_refl _)) H)
      as [Ps Fr].
    split; [|exact (parents_same_trans _ _ _ P1 Ps)].
    rewrite Fr; [exact E1|]. rewrite (parent_chain_parents_same f s s1 p P1).
    intros Hin. apply Ha. unfold ancestors. simpl. rewrite Hc, Hp. exact Hin.
  - injection H as <- _. split; [exact E1 | exact P1].
Qed.

(** [markAsUntouched({})] on a leaf that is not its own ancestor marks it
    untouched and changes only its ancestors besides. *)
Lemma markAsUntouched_leaf f id s c s' u :
  store s !! id = Some c -> kind c = KControl -> ~ In id (ancestors (S f) (store s) id) ->
  markAsUntouched (S f) id (Some no_opts) s = Ok s' u ->
  store s' !! id = Some (set_pendingTouched false (set_touched false c)) /\ parents_same s s'.
Proof.
  intros Hc Hk Ha H. cbn [markAsUntouched] in H.
  erewrite bind_modify_Some in H by exact Hc.
  erewrite bind_modify_Some in H by (simpl; apply lookup_insert_eq).
  cbv beta in H.
  match type of H with _ ?st = _ => set (s1 := st) in H end.
  assert (E1 : store s1 !! id = Some (set_pendingTouched false (set_touched false c)))
    by (simpl; apply lookup_insert_eq).
  assert (P1 : parents_same s s1) by ps_tac id Hc.
  clearbody s1. rewrite (bind_get_control _ _) in H by exact E1. cbv beta in H.
  assert (Hch : children_of (set_pendingTouched false (set_touched false c)) = [])
    by (unfold children_of; simpl; rewrite Hk; reflexivity).
  rewrite Hch in H. cbn [for_each] in H. rewrite bind_ret in H.
  change (_parent (set_pendingTouched false (set_touched false c))) with (_parent c) in H.
  apply bind_Ok_inv in H as (s2 & u2 & H2 & H3).
  cbn [deref_opts emitEvent opt_truthy no_opts] in H3. rewrite bind_ret in H3.
  injection H3 as <- _.
  destruct (_parent c) as [p|] eqn:Hp.
  - cbn [deref_opts] in H2. rewrite bind_ret in H2. cbn [onlySelf opt_truthy no_opts] in H2.
    destruct (fo_from_run _ _ _ _ _ (updateTouched_frame f p (Some no_opts) _ s1 (incl_refl _)) H2)
      as [Ps Fr].
    split; [|exact (parents_same_trans _ _ _ P1 Ps)].
    rewrite Fr; [exact E1|]. rewrite (parent_chain_parents_same f s s1 p P1).
    intros Hin. apply Ha. unfold ancestors. simpl. rewrite Hc, Hp. exact Hin.
  - injection H2 as <- _. split; [exact E1 | exact P1].
Qed.

Ltac tail_tac :=
  apply fo_get_control; intros ?cY ?sY ?EY ?HfoY;
  repeat (lazymatch goal with
          | |- preserves _ (updateValueAndValidity _ _ _ _) => fail
          | |- _ => fo_step end);
  apply uVV_frame; eapply tail_incl; eassumption.

(** ** Claims *)

(** C5: [Validators.compose] returns [null] exactly when every entry of the
    sequence is absent. Otherwise the composed validator runs the present
    entries in order on the control, and in the merged map each key has
    the value given by the last result that has the key (later validators
    overwrite earlier ones). The merged result is [null] exactly when no
    result has a key, and it is never an empty map. Composing
    [[required, minLength(3)]] and running it on a control whose value is
    the empty string gives exactly [{required: true}]. *)
Theorem compose_merges_later_wins :
  (forall (C : Type) (vs : list (option (@Validators.ValidatorFn C))),
     Validators.compose (Some vs) = None <-> Forall (fun o => o = None) vs) /\
  (forall (C : Type) (vs : list (option (@Validators.ValidatorFn C)))
          (f : @Validators.ValidatorFn C),
     Validators.compose (Some vs) = Some f ->
     forall control,
       let results := map (fun v => v control) (omap (fun o => o) vs) in
       (forall k, obj_get (default [] (f control)) k = Validators.later_wins results k) /\
       (f control = None <-> forall k, Validators.later_wins results k = None) /\
       f control <> Some []) /\
  match Validators.compose
          (Some [Some (Validators.required value); Some (Validators.minLength value 3)]) with
  | Some f => f (control_with_value (JStr ""))
  | None => None
  end = Some [("required", JBool true)].
Proof.
  split; [|split].
  - intros C vs. unfold Validators.compose. cbv zeta. rewrite omap_filter_isPresent.
    rewrite <- omap_id_nil_iff.
    destruct (omap (fun o => o) vs); split; intros H; congruence.
  - intros C vs f Hf control results.
    unfold Validators.compose in Hf. cbv zeta in Hf. rewrite omap_filter_isPresent in Hf.
    destruct (omap (fun o => o) vs) as [|v vs'] eqn:E; [discriminate|].
    injection Hf as <-. subst results. unfold Validators.ValidatorFn in E. rewrite E.
    split; [|split].
    + intros k. apply mergeErrors_lookup.
    + apply mergeErrors_None_iff.
    + apply mergeErrors_not_empty.
  - reflexivity.
Qed.

(** The theorem applied to [[required, null, minLength(3)]]. *)
Lemma compose_merges_later_wins_witness :
  let vs0 := [Some (Validators.required value); None; Some (Validators.minLength value 3)] in
  let c0 := control_with_value (JStr "ab") in
  Validators.compose (Some vs0) =
    Some (fun control => Validators._mergeErrors
            (Validators._executeValidators control
               [Validators.required value; Validators.minLength value 3])) /\
  (forall k, obj_get (default [] (Validators._mergeErrors
               (Validators._executeValidators c0
                  [Validators.required value; Validators.minLength value 3]))) k =
             Validators.later_wins
               (map (fun v => v c0) (omap (fun o => o) vs0)) k).
Proof.
  intros vs0 c0. split; [reflexivity|].
  exact (proj1 (proj1 (proj2 compose_merges_later_wins) AbstractControl vs0 _ eq_refl c0)).
Defined.

(** C9: when a group already has a child under [name], [registerControl]
    with that name and another control returns the existing child and
    leaves the whole state unchanged: the new control is not attached,
    not re-parented and gets no collection-change callback. [addControl]
    with that name therefore keeps the group's children as they were and
    leaves the new control's record untouched, whether it completes or
    throws. *)
Theorem registerControl_keeps_existing validatorFns fuel s g gc cs name existing c :
  store s !! g = Some gc -> kind gc = KGroup cs -> obj_get cs name = Some existing ->
  registerControl g name c s = Ok s existing /\
  (exists gc', store (res_state (addControl validatorFns fuel g name c s)) !! g = Some gc' /\
               kind gc' = KGroup cs) /\
  (c <> g -> store (res_state (addControl validatorFns fuel g name c s)) !! c = store s !! c).
Proof.
  intros Hg Hk Hn.
  assert (Hr : registerControl g name c s = Ok s existing).
  { unfold registerControl, bind, get_control. rewrite Hg, Hk, Hn. reflexivity. }
  assert (Ha : addControl validatorFns fuel g name c s =
               updateValueAndValidity validatorFns fuel g None s).
  { unfold addControl, bind. rewrite Hr. reflexivity. }
  rewrite Ha.
  destruct (updateValueAndValidity_None_local validatorFns fuel g s) as (_ & _ & Hother & Hself).
  split; [exact Hr|]. split.
  - destruct (Hself gc Hg) as (gc' & H1 & H2 & _). exists gc'. split; [exact H1|]. congruence.
  - intros Hc. apply Hother, Hc.
Qed.

(** The theorem on a group [0] with child [a] = [1], adding control [2]
    under the name [a]. *)
Lemma registerControl_keeps_existing_witness :
  let s := ex_state [(0, ex_group [("a", 1)]); (1, ex_leaf (Some 0) (JNum 1));
                     (2, ex_leaf None (JNum 2))] in
  registerControl 0 "a" 2 s = Ok s 1 /\
  (exists gc', store (res_state (addControl no_validators 5 0 "a" 2 s)) !! 0 = Some gc' /\
               kind gc' = KGroup [("a", 1)]) /\
  (2 <> 0 -> store (res_state (addControl no_validators 5 0 "a" 2 s)) !! 2 = store s !! 2).
Proof.
  intros s.
  apply (registerControl_keeps_existing no_validators 5 s 0 (ex_group [("a", 1)]) [("a", 1)]);
    reflexivity.
Defined.

(** C6: strict [setValue] of a group [g] with children [cs], given an
    object value [l]. (1) When, in the order of the children, the first
    child name without a value (missing or [undefined]) is [n], the call
    throws "Must supply a value for form control with name: 'n'." and the
    state is unchanged: no child has been written. (2) With no children,
    a value with at least one key throws "There are no form controls
    registered with this group yet." before any change. (3) A call that
    completes had a value for every child, and every key of the value
    names a child; but it does not need a child: [setValue({})] on a group
    with no children passes both checks. *)
Theorem setValue_group_strict validatorFns f s g gc cs l opts :
  store s !! g = Some gc -> kind gc = KGroup cs ->
  (forall pre n ch post, cs = pre ++ (n, ch) :: post ->
     Forall (fun nc => supplied l nc.1 = true) pre -> supplied l n = false ->
     setValue validatorFns (S f) g (JObj l) opts s = Throw s (Error (msg_must_supply n))) /\
  (cs = [] -> l <> [] ->
     setValue validatorFns (S f) g (JObj l) opts s = Throw s (Error msg_no_controls)) /\
  (forall s', setValue validatorFns (S f) g (JObj l) opts s = Ok s' tt ->
     Forall (fun nc => supplied l nc.1 = true) cs /\
     Forall (fun k => is_Some (obj_get cs k)) (map fst l)).
Proof.
  intros Hg Hk. rewrite (setValue_group_step validatorFns f s g gc cs) by assumption.
  assert (Hcheck : _checkAllValuesPresent g (JObj l) s =
    for_each cs (fun '(name, _) =>
      let* x := js_get_m (JObj l) name in
      match x with JUndefined => throw (Error (msg_must_supply name)) | _ => ret tt end) s).
  { unfold _checkAllValuesPresent. rewrite (bind_Ok _ _ s s cs) by exact (group_controls_Ok s g gc cs Hg Hk). reflexivity. }
  split; [|split].
  - intros pre n ch post -> Hpre Hn. apply bind_Throw. rewrite Hcheck.
    apply for_each_app_throw.
    + eapply Forall_impl; [exact Hpre|]. intros nc Hs. etransitivity; [exact (check_step_eq l nc s)|]. rewrite Hs. reflexivity.
    + etransitivity; [exact (check_step_eq l (n, ch) s)|]. simpl. rewrite Hn. reflexivity.
  - intros -> Hl. destruct l as [|[k x] l]; [congruence|].
    rewrite (bind_Ok _ _ s s tt) by (rewrite Hcheck; reflexivity).
    rewrite (bind_Ok _ _ s s (map fst ((k, x) :: l))) by reflexivity.
    apply bind_Throw. simpl. apply bind_Throw. apply bind_Throw.
    unfold _throwIfControlMissing. rewrite (bind_Ok _ _ s s []) by exact (group_controls_Ok s g gc [] Hg Hk).
    reflexivity.
  - intros s' Hok.
    apply bind_Ok_inv in Hok as (s1 & [] & H1 & Hok). rewrite Hcheck in H1.
    apply bind_Ok_inv in Hok as (s2 & ks & H2 & Hok). simpl in H2. injection H2 as <- <-.
    apply bind_Ok_inv in Hok as (s3 & [] & H3 & _).
    split.
    + apply Forall_forall. intros nc Hin.
      destruct (for_each_Ok_inv (fun _ _ => True) (fun _ => I) (fun _ _ _ _ _ => I) cs _ s s1
                  (fun _ _ => I) H1 nc (proj1 (list_elem_of_In _ _) Hin)) as (sx & sx' & _ & Hx).
      pose proof (eq_trans (eq_sym (check_step_eq l nc sx)) Hx) as Hx'.
      destruct (supplied l nc.1); [reflexivity | discriminate].
    + assert (Hks1 : shape_kept s s1).
      { apply (f_equal res_state) in H1. rewrite for_each_reader in H1.
        - simpl in H1. subst s1. apply shape_kept_refl.
        - intros [n c]. solve_reader. }
      apply Forall_forall. intros k Hin.
      match type of H3 with
      | for_each _ ?G _ = _ => assert (HG : forall x, preserves shape_kept (G x))
      end.
      { intros x. unfold _throwIfControlMissing, group_controls, js_get_m.
        repeat (apply kk_setValue || kk_step). }
      destruct (for_each_Ok_inv shape_kept shape_kept_refl shape_kept_trans _ _ s1 s3 HG H3 k
                  (proj1 (list_elem_of_In _ _) Hin)) as (sx & sx' & Hkx & Hx).
      destruct (shape_kept_trans _ _ _ Hks1 Hkx g gc Hg) as (gx & Egx & Kgx).
      apply bind_Ok_inv in Hx as (sy & [] & Hy & _).
      unfold _throwIfControlMissing in Hy.
      rewrite (bind_Ok _ _ sx sx cs) in Hy by (apply (group_controls_Ok sx g gx); [exact Egx | rewrite (proj1 Kgx); exact Hk]).
      destruct (Nat.eqb (length cs) 0); [discriminate|].
      destruct (obj_get cs k); [eauto | discriminate].
Qed.

(** The group [{a, b}] given [{a: 1}]: the must-supply error for [b],
    with the state, and so [a], unchanged. *)
Lemma setValue_group_strict_witness :
  let s := ex_state [(0, ex_group [("a", 1); ("b", 2)]); (1, ex_leaf (Some 0) JNull);
                     (2, ex_leaf (Some 0) JNull)] in
  setValue no_validators 5 0 (JObj [("a", JNum 1)]) None s =
  Throw s (Error (msg_must_supply "b")).
Proof.
  intros s.
  apply (proj1 (setValue_group_strict no_validators 4 s 0 (ex_group [("a", 1); ("b", 2)])
                  [("a", 1); ("b", 2)] [("a", JNum 1)] None eq_refl eq_refl)
           [("a", 1)] "b" 2 [] eq_refl).
  - constructor; [reflexivity | constructor].
  - reflexivity.
Defined.

(** Counterexample to C6: [setValue({})] on a group with no children
    completes; no error is thrown. *)
Lemma setValue_empty_group_completes :
  exists s', setValue no_validators 5 0 (JObj []) None (ex_state [(0, ex_group [])]) = Ok s' tt.
Proof. vm_compute. eexists. reflexivity. Qed.

(** C4: a control built by [new FormControl] without an [updateOn]
    option gets the field initialiser [_updateOn = "change"], and the
    getter returns an own setting before it looks at the parent: such a
    control reports ['change'] whatever its ancestors say, also after
    [registerControl] attaches it to a group. *)
Theorem updateOn_own_default_shadows_parent validatorFns fuel formState vo av s s' id :
  match vo with OptionsArg _ _ (Some _) => False | _ => True end ->
  new_FormControl validatorFns fuel formState vo av s = Ok s' id ->
  option_map _updateOn (store s' !! id) = Some (Some change) /\
  (forall g name t, option_map _updateOn (store t !! id) = Some (Some change) ->
     option_map _updateOn (store (res_state (registerControl g name id t)) !! id)
       = Some (Some change)) /\
  (forall f t, option_map _updateOn (store t !! id) = Some (Some change) ->
     get_updateOn (S f) id t = Ok t change).
Proof.
  intros Hvo Hnew. split; [|split].
  - unfold new_FormControl in Hnew.
    apply bind_Ok_inv in Hnew as (s1 & id1 & Ha & Hnew). injection Ha as <- <-.
    apply bind_Ok_inv in Hnew as (s2 & [] & H2 & Hnew).
    apply bind_Ok_inv in Hnew as (s3 & [] & H3 & Hnew).
    apply bind_Ok_inv in Hnew as (s4 & [] & H4 & Hnew). injection Hnew as <- <-.
    assert (E3 : s3 = s2).
    { destruct vo as [| |? ? [h|]]; try contradiction; injection H3 as <-; reflexivity. }
    subst s3.
    pose proof (preserves_Ok _ _ _ _ _ (kk__applyFormState validatorFns fuel _ formState) H2) as K2.
    pose proof (preserves_Ok _ _ _ _ _ (kk_updateValueAndValidity validatorFns fuel _ _) H4) as K4.
    destruct (shape_kept_trans _ _ _ K2 K4 (fresh s)
                (initial_control KControl (coerceToValidator vo) (coerceToAsyncValidator av vo) true)
                ltac:(apply lookup_insert_eq)) as (c & Ec & _ & _ & Uc).
    rewrite Ec. simpl. rewrite Uc. reflexivity.
  - intros g name t Ht. destruct (store t !! id) as [c|] eqn:E; [|discriminate].
    destruct (updateOn_kept_registerControl id g name t c E) as (c' & -> & U).
    simpl in *. congruence.
  - intros f t Ht. destruct (store t !! id) as [c|] eqn:E; [|discriminate].
    simpl. rewrite (bind_get_control _ c) by exact E. simpl in Ht. injection Ht as ->.
    reflexivity.
Qed.

(** [new FormControl(null)] placed in [new FormGroup({a}, {updateOn:
    'blur'})]: the group's strategy is ['blur'] and it is the leaf's
    parent, yet the leaf reports ['change']. *)
Lemma updateOn_own_default_shadows_parent_witness :
  new_FormControl no_validators 3 JNull NoValidator None (ex_state []) =
    Ok blur_group_leaf_state 0 /\
  new_FormGroup no_validators 3 [("a", 0)] (OptionsArg None None (Some blur)) None
    blur_group_leaf_state = Ok blur_group_state 1 /\
  option_map _parent (store blur_group_state !! 0) = Some (Some 1) /\
  option_map _updateOn (store blur_group_state !! 1) = Some (Some blur) /\
  get_updateOn 5 0 blur_group_state = Ok blur_group_state change.
Proof.
  assert (H : new_FormControl no_validators 3 JNull NoValidator None (ex_state []) =
              Ok blur_group_leaf_state 0) by (vm_compute; reflexivity).
  split; [exact H|]. split; [vm_compute; reflexivity|].
  split; [vm_compute; reflexivity|]. split; [vm_compute; reflexivity|].
  apply (proj2 (proj2 (updateOn_own_default_shadows_parent no_validators 3 JNull NoValidator
                         None (ex_state []) blur_group_leaf_state 0 I H))).
  vm_compute. reflexivity.
Defined.

(** C3: [updateValueAndValidity()] called with no options argument
    emits no notification and does not reach the parent: whether it
    completes or throws, the log is unchanged and every control other
    than the callee, its parent included, keeps its record. *)
Theorem updateValueAndValidity_no_argument_silent validatorFns fuel id s :
  log (res_state (updateValueAndValidity validatorFns fuel id None s)) = log s /\
  (forall j, j <> id ->
     store (res_state (updateValueAndValidity validatorFns fuel id None s)) !! j = store s !! j).
Proof.
  destruct (updateValueAndValidity_None_local validatorFns fuel id s) as (L & _ & O & _).
  split; [exact L | exact O].
Qed.

(** C2: when the task started by [_runAsyncValidator] completes
    successfully, whatever its result ([null] or an error map), the
    observer, which has an [error] callback only, applies nothing: the
    call completes, emits nothing, changes no other control, and leaves
    the control's status (so a [PENDING] one stays [PENDING]) and its
    errors as they were. *)
Theorem async_success_result_dropped fuel id r s c :
  store s !! id = Some c ->
  exists s', asyncSettle fuel id (Resolved r) s = Ok s' tt /\
    log s' = log s /\
    (forall j, j <> id -> store s' !! j = store s !! j) /\
    exists c', store s' !! id = Some c' /\ status c' = status c /\ errors c' = errors c.
Proof.
  intros Hc. unfold asyncSettle. rewrite (bind_get_control _ c) by exact Hc.
  destruct (_asyncValidationSubscription c) as [e|].
  - unfold bind, modify. rewrite Hc. eexists. split; [reflexivity|]. simpl.
    split; [reflexivity|]. split.
    + intros j Hj. apply lookup_insert_ne. congruence.
    + eexists. split; [apply lookup_insert_eq | split; reflexivity].
  - eexists. split; [reflexivity|]. split; [reflexivity|]. split; [reflexivity|].
    exists c. split; [exact Hc | split; reflexivity].
Qed.

(** A control left [PENDING] by its constructor: after its task
    completes with [null] it is still [PENDING]. *)
Lemma async_success_result_dropped_witness :
  status pending_leaf_record = PENDING /\
  exists s', asyncSettle 3 0 (Resolved None) pending_leaf_state = Ok s' tt /\
    option_map status (store s' !! 0) = Some PENDING /\
    option_map errors (store s' !! 0) = Some None.
Proof.
  assert (Hc : store pending_leaf_state !! 0 = Some pending_leaf_record)
    by (vm_compute; reflexivity).
  destruct (async_success_result_dropped 3 0 None _ _ Hc) as (s' & H1 & _ & _ & c' & E & S & Er).
  split; [vm_compute; reflexivity|]. exists s'. split; [exact H1|].
  assert (E2 : store s' !! 0 = Some c') by exact E. rewrite E2. simpl. rewrite S, Er. split; vm_compute; reflexivity.
Defined.

(** C10: [disable] and [enable] read [opts.emitEvent] and [opts.onlySelf]
    with no default, so without an argument neither call ever completes,
    whatever the tree and the fuel. On a tree whose controls are all in
    the heap, [disable()] throws a [TypeError] once the control is
    [DISABLED] with its errors cleared and each of its children has been
    disabled the same way. [enable()] on a control that is not among its
    own descendants throws from a state where the control's record is the
    old one with status [VALID]. *)
Theorem disable_enable_fault_without_options validatorFns fuel id s c :
  store s !! id = Some c ->
  (forall s' u, disable validatorFns fuel id None s <> Ok s' u) /\
  (forall s' u, enable validatorFns fuel id None s <> Ok s' u) /\
  (complete_tree fuel (store s) id = true -> exists s',
     disable validatorFns fuel id None s = Throw s' (TypeError msg_undefined) /\
     disabled_clear id s' /\ forall ch, In ch (children_of c) -> disabled_clear ch s') /\
  (fuel <> 0 -> ~ In id (descendants fuel (store s) id) -> exists s' e,
     enable validatorFns fuel id None s = Throw s' e /\
     store s' !! id = Some (set_status VALID c)).
Proof.
  intros Hc. split; [apply never_ok_disable_None|]. split; [apply never_ok_enable_None|]. split.
  - intros Ht. destruct fuel as [|f]; [discriminate|].
    simpl in Ht. rewrite Hc in Ht.
    cbn [disable]. rewrite (bind_modify_Some _ _ _ _ c) by exact Hc.
    rewrite (bind_modify_Some _ _ _ _ (set_status DISABLED c)) by (simpl; apply lookup_insert_eq).
    rewrite (bind_get_control _ (set_errors None (set_status DISABLED c)))
      by (simpl; apply lookup_insert_eq).
    change (children_of (set_errors None (set_status DISABLED c))) with (children_of c).
    match goal with |- exists s', bind _ _ ?st = _ /\ _ => set (s2 := st) end.
    assert (K2 : shape_kept s s2).
    { intros j cj Ej. unfold s2. simpl. destruct (decide (j = id)) as [->|Hne].
      - rewrite lookup_insert_eq. rewrite Hc in Ej. injection Ej as <-. eexists.
        split; [reflexivity|]. repeat split.
      - rewrite !lookup_insert_ne by congruence. exists cj. split; [exact Ej|]. repeat split. }
    assert (D2 : disabled_clear id s2).
    { exists (set_errors None (set_status DISABLED c)). unfold s2. simpl.
      rewrite lookup_insert_eq. auto. }
    clearbody s2.
    destruct (for_each_disable_children validatorFns f (children_of c) s2)
      as (s3 & E3 & K3 & Dch & Sd).
    { intros x Hx. apply (complete_tree_shape _ s _ _ K2), (proj1 (forallb_forall _ _) Ht x Hx). }
    rewrite (bind_Ok _ _ _ _ _ E3).
    destruct (shape_kept_trans _ _ _ K2 K3 id c Hc) as (c3 & E3c & Kc3 & _).
    destruct (updateValue_Ok s3 id c3) as (s4 & E4); [exact E3c | |].
    { intros x Hx. rewrite (children_of_kind c c3 Kc3) in Hx.
      destruct (Dch x Hx) as (cx & Ex & _). rewrite Ex. eauto. }
    rewrite (bind_Ok _ _ _ _ _ E4).
    exists s4. split; [reflexivity|]. split.
    + apply (preserves_Ok _ _ _ _ _ (sd__updateValue id id) E4), Sd, D2.
    + intros ch Hch. apply (preserves_Ok _ _ _ _ _ (sd__updateValue ch id) E4), Dch, Hch.
  - intros Hf Hd. destruct fuel as [|f]; [congruence|].
    cbn [enable]. rewrite (bind_modify_Some _ _ _ _ c) by exact Hc.
    rewrite (bind_get_control _ (set_status VALID c)) by (simpl; apply lookup_insert_eq).
    change (children_of (set_status VALID c)) with (children_of c).
    match goal with |- exists s' e, bind ?m _ ?st = _ /\ _ => set (s1 := st); set (F := m) end.
    assert (K1 : kinds_same s s1).
    { intros j. unfold s1. simpl. destruct (decide (j = id)) as [->|Hne].
      - rewrite lookup_insert_eq, Hc. reflexivity.
      - rewrite lookup_insert_ne by congruence. reflexivity. }
    assert (HF : frame_sub (descendants (S f) (store s) id) s1 (res_state (F s1))).
    { refine (preserves_for_each_In _ (fs_from_refl _ _) (fs_from_trans _ _) _ _ _ s1
                (frame_sub_refl _ _)).
      intros x Hx. apply enable_child_frame. rewrite (subtree_kinds_same f s s1 x K1).
      intros y Hy. unfold descendants. simpl. rewrite Hc. apply in_flat_map. eauto. }
    destruct HF as [_ HF]. specialize (HF id Hd).
    assert (E1 : store s1 !! id = Some (set_status VALID c)) by (unfold s1; simpl; apply lookup_insert_eq).
    clearbody s1 F. unfold bind at 1. destruct (F s1) as [s2 u|s2 e]; simpl in HF.
    + exists s2, (TypeError msg_undefined). split; [reflexivity|]. rewrite HF. exact E1.
    + exists s2, e. split; [reflexivity|]. rewrite HF. exact E1.
Qed.

(** [disable()] on the group [{a}] throws with the group and [a]
    [DISABLED] and without errors; [enable()] on the group throws once
    the group's status is [VALID]. *)
Lemma disable_enable_fault_without_options_witness :
  (exists s', disable no_validators 5 0 None group_and_leaf_state =
     Throw s' (TypeError msg_undefined) /\
     disabled_clear 0 s' /\ forall ch, In ch [1] -> disabled_clear ch s') /\
  (exists s' e, enable no_validators 5 0 None group_and_leaf_state = Throw s' e /\
     store s' !! 0 = Some (set_status VALID (ex_group [("a", 1)]))).
Proof.
  destruct (disable_enable_fault_without_options no_validators 5 0 group_and_leaf_state
              (ex_group [("a", 1)])) as (_ & _ & HD & HE); [vm_compute; reflexivity|].
  split; [apply HD; vm_compute; reflexivity|].
  apply HE; [discriminate | vm_compute; intros [H|[]]; discriminate].
Defined.

(** C8: [markAsDirty()] with no options marks the control itself and
    nothing else. It does not visit the parent, although its doc comment
    says it also marks all direct ancestors as dirty, and [FormControl]'s
    change handlers call it so. *)
Theorem markAsDirty_without_options_self_only f id s :
  markAsDirty (S f) id None s =
  match store s !! id with
  | Some c => Ok (mkState (<[id := set_pristine false c]> (store s)) (log s) (fresh s)) tt
  | None => Throw s (TypeError msg_undefined)
  end.
Proof.
  cbn [markAsDirty]. unfold bind at 1, modify at 1.
  destruct (store s !! id) as [c|] eqn:Hc; [|reflexivity].
  rewrite bind_ret. rewrite (bind_get_control _ (set_pristine false c)) by (simpl; apply lookup_insert_eq).
  destruct (_parent _); reflexivity.
Qed.

(** [a.markAsDirty()] in the group [{a}] leaves the group pristine while
    [a] is dirty. *)
Lemma markAsDirty_leaves_group_pristine :
  exists s', markAsDirty 3 0 None plain_group_state = Ok s' tt /\
    option_map pristine (store s' !! 1) = Some true /\
    option_map dirty (store s' !! 0) = Some true.
Proof. vm_compute. eexists. split; [reflexivity | split; reflexivity]. Qed.

(** C7: on a leaf that is not among its own ancestors, [reset()] without
    arguments uses the default [formState = null]: when it completes, the
    leaf holds the value [null], is pristine and untouched, whatever value
    it was built with. The calls it makes up the parent chain change the
    ancestors only. *)
Theorem reset_without_state_sets_null validatorFns fuel id s s' c :
  store s !! id = Some c -> kind c = KControl -> ~ In id (ancestors fuel (store s) id) ->
  reset validatorFns fuel id JUndefined None s = Ok s' tt ->
  exists c', store s' !! id = Some c' /\ value c' = JNull /\ pristine c' = true /\
    touched c' = false.
Proof.
  intros Hc Hk Ha H.
  change (reset validatorFns fuel id JUndefined None) with
    (_applyFormState validatorFns fuel id JNull ;;
     markAsPristine fuel id (Some no_opts) ;;
     markAsUntouched fuel id (Some no_opts) ;;
     let* c := get_control id in
     FormControl_setValue validatorFns fuel id (value c) (Some no_opts) ;;
     modify id (set_pendingChange false)) in H.
  apply bind_Ok_inv in H as (s1 & u1 & H1 & H).
  unfold _applyFormState in H1. cbn beta iota in H1.
  rewrite (bind_Ok _ _ _ _ _ (modify_Some _ _ _ _ Hc)),
    (modify_Some id (set_value JNull) _ (set_pendingValue JNull c)) in H1
    by (simpl; apply lookup_insert_eq).
  injection H1 as <- _.
  set (c1 := set_value JNull (set_pendingValue JNull c)) in H.
  match type of H with _ ?st = _ => set (s1 := st) in H end.
  assert (E1 : store s1 !! id = Some c1) by (simpl; apply lookup_insert_eq).
  assert (P1 : parents_same s s1) by ps_tac id Hc.
  clearbody s1.
  apply bind_Ok_inv in H as (s2 & u2 & H2 & H).
  destruct fuel as [|f]; [discriminate H2|].
  rewrite <- (ancestors_parents_same _ _ _ _ P1) in Ha.
  destruct (markAsPristine_leaf f id s1 c1 s2 u2 E1 Hk Ha H2) as (E2 & P2).
  rewrite <- (ancestors_parents_same _ _ _ _ P2) in Ha.
  apply bind_Ok_inv in H as (s3 & u3 & H3 & H).
  destruct (markAsUntouched_leaf f id s2 _ s3 u3 E2 Hk Ha H3) as (E3 & _).
  set (c3 := set_pendingTouched false (set_touched false (set_pendingDirty false (set_pristine true c1))))
    in E3.
  rewrite (bind_get_control _ c3) in H by exact E3.
  apply bind_Ok_inv in H as (s4 & u4 & H4 & H5).
  unfold FormControl_setValue in H4. cbv zeta in H4.
  erewrite bind_modify_Some in H4 by exact E3.
  erewrite bind_modify_Some in H4 by (simpl; apply lookup_insert_eq).
  match type of H4 with ?T ?s3b = _ =>
    pose proof (lk_updateValueAndValidity validatorFns id (S f) id _ s3b
                : leaf_kept id s3b (res_state (T s3b))) as L4 end.
  rewrite H4 in L4. simpl in L4.
  destruct (L4 (set_value (value c3) (set_pendingValue (value c3) c3)))
    as (c4 & E4 & K4 & P4 & V4 & Pr4 & T4); [apply lookup_insert_eq | exact Hk |].
  rewrite (modify_Some _ _ _ _ E4) in H5. injection H5 as <-.
  exists (set_pendingChange false c4). simpl. rewrite lookup_insert_eq.
  split; [reflexivity|]. simpl in *. repeat split; congruence.
Qed.

(** [new FormControl('abc')], then [new FormGroup({a: control})], then
    [control.reset()]. *)
Lemma reset_without_state_sets_null_witness :
  exists s' c', reset no_validators 5 0 JUndefined None abc_group_state = Ok s' tt /\
    store s' !! 0 = Some c' /\ value c' = JNull /\ pristine c' = true /\ touched c' = false.
Proof.
  assert (E : exists s', reset no_validators 5 0 JUndefined None abc_group_state = Ok s' tt)
    by (vm_compute; eexists; reflexivity).
  destruct E as [s' E].
  destruct (reset_without_state_sets_null no_validators 5 0 abc_group_state s'
              (default (control_with_value JUndefined) (store abc_group_state !! 0)))
    as (c' & H); [vm_compute; reflexivity | vm_compute; reflexivity
                 | vm_compute; intros [H|[]]; discriminate | exact E |].
  exists s', c'. split; [exact E | exact H].
Defined.

(** [new FormControl('abc')] holds ['abc']; after [reset()] it holds
    [null]. *)
Lemma reset_forgets_initial_value :
  option_map value (store abc_leaf_state !! 0) = Some (JStr "abc") /\
  exists s', reset no_validators 3 0 JUndefined None abc_leaf_state = Ok s' tt /\
    option_map value (store s' !! 0) = Some JNull.
Proof. split; [vm_compute; reflexivity|]. vm_compute. eexists. split; reflexivity. Qed.

(** C1: what [updateValueAndValidity] leaves as the status of a
    [FormGroup] or a [FormArray], with any options, compared with the
    rule of the spec read on the children and on the errors the call
    left. The composite is not among its children nor among its own
    ancestors, and no child is an ancestor: the calls the composite makes
    on its parent chain then leave it and its children alone. A disabled
    composite stays [DISABLED] whatever its children; one that validates
    on submit and is not submitted is left [VALID]; otherwise the status
    is the rule, except that an asynchronous validator turns [VALID] and
    [PENDING] into [PENDING]. *)
Theorem updateValueAndValidity_composite_status validatorFns f s s' g c o h :
  store s !! g = Some c -> composite_kind (kind c) -> _updateOn c = Some h ->
  (forall ch, In ch (children_of c) -> ch <> g /\ is_Some (store s !! ch)) ->
  (forall j, In j (ancestors (S f) (store s) g) -> j <> g /\ ~ In j (children_of c)) ->
  updateValueAndValidity validatorFns (S f) g o s = Ok s' tt ->
  exists c', store s' !! g = Some c' /\
    status c' =
      (if disabled c then DISABLED
       else if FormHooks_eqb h submit && negb (submitted c) then VALID
       else let st := spec_composite_status s' (children_of c) false (errors c') in
            if match asyncValidator c with Some _ => true | None => false end &&
               (FieldStatus_eqb st VALID || FieldStatus_eqb st PENDING)
            then PENDING else st).
Proof.
  intros Hc Hk Hh Hch Hanc H.
  set (A := ancestors (S f) (store s) g) in Hanc.
  assert (Hne : forall ch, In ch (children_of c) -> ch <> g) by (intros ch Hin; apply Hch, Hin).
  assert (Fin : forall s1 c1 (T : M unit), store s1 !! g = Some c1 ->
            (forall j, j <> g -> store s1 !! j = store s !! j) ->
            preserves (fo_from A s1) T -> T s1 = Ok s' tt ->
            store s' !! g = Some c1 /\
            forall ch, In ch (children_of c) -> store s' !! ch = store s !! ch).
  { intros s1 c1 T E1 O1 HT HR. destruct (fo_from_run _ _ _ _ _ HT HR) as [_ Fr]. split.
    - rewrite Fr; [exact E1|]. intros Hin. exact (proj1 (Hanc g Hin) eq_refl).
    - intros ch Hin. rewrite Fr; [apply O1, Hne, Hin|]. intros HA. exact (proj2 (Hanc ch HA) Hin). }
  assert (PS : forall s1 c1, store s1 !! g = Some c1 -> _parent c1 = _parent c ->
            (forall j, j <> g -> store s1 !! j = store s !! j) -> parents_same s s1).
  { intros s1 c1 E1 P1 O1 j. destruct (decide (j = g)) as [->|Hj].
    - rewrite E1, Hc. simpl. congruence.
    - rewrite O1 by exact Hj. reflexivity. }
  cbn [updateValueAndValidity] in H. unfold setInitialStatus in H.
  erewrite bind_modify_Some in H by exact Hc. cbv beta in H.
  apply bind_Ok_inv in H as (s2 & u2 & H2 & H).
  apply updateValue_composite_Ok with (c := set_status (if disabled c then DISABLED else VALID) c)
    in H2 as [v ->]; [|simpl; apply lookup_insert_eq | exact Hk].
  rewrite (bind_get_control _ (set_value v (set_status (if disabled c then DISABLED else VALID) c)))
    in H by (simpl; apply lookup_insert_eq).
  cbv beta in H.
  match type of H with _ ?st = _ => set (S2 := st) in H end.
  set (c2 := set_value v (set_status (if disabled c then DISABLED else VALID) c)) in H.
  assert (E2 : store S2 !! g = Some c2) by (simpl; apply lookup_insert_eq).
  assert (O2 : forall j, j <> g -> store S2 !! j = store s !! j)
    by (intros j Hj; simpl; rewrite !lookup_insert_ne by congruence; reflexivity).
  clearbody S2.
  destruct (disabled c) eqn:Hd.
  - change (enabled c2) with false in H. cbn iota in H. rewrite bind_ret in H. cbv beta in H.
    rewrite bind_ret in H.
    pose proof (PS S2 c2 E2 eq_refl O2) as Hps.
    match type of H with ?T _ = _ => assert (HT : preserves (fo_from A S2) T) by tail_tac end.
    destruct (Fin S2 c2 _ E2 O2 HT H) as [Eg _].
    exists c2. split; [exact Eg | reflexivity].
  - change (enabled c2) with true in H. change (submitted c2) with (submitted c) in H.
    cbn iota in H.
    apply bind_Ok_inv in H as (s3 & sv & H3 & H).
    destruct f as [|f]; [discriminate H3|].
    rewrite (bind_Ok _ _ _ _ _ (get_updateOn_own f g S2 c2 h E2 Hh)) in H3.
    injection H3 as <- <-.
    assert (Hsv : negb (FormHooks_eqb h submit) || submitted c =
                  negb (FormHooks_eqb h submit && negb (submitted c)))
      by (destruct (FormHooks_eqb h submit), (submitted c); reflexivity).
    rewrite Hsv in H. destruct (FormHooks_eqb h submit && negb (submitted c)); cbn [negb] in H.
    + rewrite bind_ret in H.
      pose proof (PS S2 c2 E2 eq_refl O2) as Hps.
      match type of H with ?T _ = _ => assert (HT : preserves (fo_from A S2) T) by tail_tac end.
      destruct (Fin S2 c2 _ E2 O2 HT H) as [Eg _].
      exists c2. split; [exact Eg | reflexivity].
    + apply bind_Ok_inv in H as (s7 & u7 & H7 & H).
      unfold _cancelExistingSubscription in H7.
      erewrite bind_modify_Some in H7 by exact E2. cbv beta in H7.
      apply bind_Ok_inv in H7 as (s4 & e & H4 & H7).
      apply (reader_Ok _ _ _ _ (reader__runValidator _ _)) in H4 as ->. cbv beta in H7.
      erewrite bind_modify_Some in H7 by (simpl; apply lookup_insert_eq). cbv beta in H7.
      match type of H7 with _ ?st = _ => set (S4 := st) in H7 end.
      set (c4 := set_errors e (set_subscription None c2)) in H7.
      assert (E4 : store S4 !! g = Some c4) by (simpl; apply lookup_insert_eq).
      assert (O4 : forall j, j <> g -> store S4 !! j = store s !! j)
        by (intros j Hj; simpl; rewrite !lookup_insert_ne by congruence; apply O2, Hj).
      clearbody S4.
      apply bind_Ok_inv in H7 as (s5 & st & H5 & H7).
      rewrite (calculateStatus_composite S4 g c4 E4 Hk) in H5.
      2:{ intros ch Hin. rewrite O4 by (apply Hne, Hin). apply Hch, Hin. }
      injection H5 as <- <-. cbv beta in H7.
      change (children_of c4) with (children_of c) in H7.
      rewrite (spec_composite_status_same s S4 g) in H7 by assumption.
      change (disabled c4) with false in H7. change (errors c4) with e in H7.
      set (ST := spec_composite_status s (children_of c) false e) in H7.
      erewrite bind_modify_Some in H7 by exact E4. cbv beta in H7.
      match type of H7 with _ ?st = _ => set (S6 := st) in H7 end.
      assert (E6 : store S6 !! g = Some (set_status ST c4)) by (simpl; apply lookup_insert_eq).
      assert (O6 : forall j, j <> g -> store S6 !! j = store s !! j)
        by (intros j Hj; simpl; rewrite !lookup_insert_ne by congruence; apply O4, Hj).
      clearbody S6.
      destruct (FieldStatus_eqb ST VALID || FieldStatus_eqb ST PENDING) eqn:Hvp.
      * unfold _runAsyncValidator in H7. rewrite (bind_get_control _ _) in H7 by exact E6.
        cbv beta in H7. change (asyncValidator (set_status ST c4)) with (asyncValidator c) in H7.
        destruct (asyncValidator c) as [a|] eqn:Ha.
        -- erewrite bind_modify_Some in H7 by exact E6. cbv beta in H7.
           rewrite modify_Some with (c := set_status PENDING (set_status ST c4)) in H7
             by (simpl; apply lookup_insert_eq).
           injection H7 as <- _.
           set (c7 := set_subscription (Some true) (set_status PENDING (set_status ST c4))) in H.
           match type of H with _ ?st = _ => set (S7 := st) in H end.
           assert (E7 : store S7 !! g = Some c7) by (simpl; apply lookup_insert_eq).
           assert (O7 : forall j, j <> g -> store S7 !! j = store s !! j)
             by (intros j Hj; simpl; rewrite !lookup_insert_ne by congruence; apply O6, Hj).
           clearbody S7.
           pose proof (PS S7 c7 E7 eq_refl O7) as Hps.
           match type of H with ?T _ = _ => assert (HT : preserves (fo_from A S7) T) by tail_tac end.
           destruct (Fin S7 c7 _ E7 O7 HT H) as [Eg Ech].
           exists c7. split; [exact Eg|]. cbv zeta.
           rewrite (spec_composite_status_eq s s' _ _ _ Ech).
           change (errors c7) with e. fold ST. rewrite Hvp. reflexivity.
        -- injection H7 as <- _.
           pose proof (PS S6 _ E6 eq_refl O6) as Hps.
           match type of H with ?T _ = _ => assert (HT : preserves (fo_from A S6) T) by tail_tac end.
           destruct (Fin S6 _ _ E6 O6 HT H) as [Eg Ech].
           exists (set_status ST c4). split; [exact Eg|]. cbv zeta.
           rewrite (spec_composite_status_eq s s' _ _ _ Ech).
           change (errors (set_status ST c4)) with e. fold ST. reflexivity.
      * injection H7 as <- _.
        pose proof (PS S6 _ E6 eq_refl O6) as Hps.
        match type of H with ?T _ = _ => assert (HT : preserves (fo_from A S6) T) by tail_tac end.
        destruct (Fin S6 _ _ E6 O6 HT H) as [Eg Ech].
        exists (set_status ST c4). split; [exact Eg|]. cbv zeta.
        rewrite (spec_composite_status_eq s s' _ _ _ Ech).
        change (errors (set_status ST c4)) with e. fold ST. rewrite Hvp, andb_false_r.
        reflexivity.
Qed.

(** In the group [{arr, b}] validating on submit, the array [arr] holds a
    [PENDING] and an [INVALID] child: [arr.updateValueAndValidity({})]
    makes it [PENDING] and goes on to the group; the group's own
    [updateValueAndValidity()] leaves it [VALID] since it is not
    submitted. *)
Lemma updateValueAndValidity_composite_status_witness :
  (exists c', store (res_state (updateValueAndValidity no_validators 4 1 (Some no_opts)
                                  status_tree_state)) !! 1 = Some c' /\ status c' = PENDING) /\
  (exists c', store (res_state (updateValueAndValidity no_validators 4 0 None
                                  status_tree_state)) !! 0 = Some c' /\ status c' = VALID).
Proof.
  split.
  - destruct (updateValueAndValidity_composite_status no_validators 3 status_tree_state
      (res_state (updateValueAndValidity no_validators 4 1 (Some no_opts) status_tree_state)) 1
      (default (control_with_value JUndefined) (store status_tree_state !! 1)) (Some no_opts) change)
      as (c' & Hs & Hst).
    + vm_compute. reflexivity.
    + vm_compute. exact I.
    + vm_compute. reflexivity.
    + intros ch Hin. vm_compute in Hin.
      destruct Hin as [<-|[<-|[]]]; (split; [discriminate | vm_compute; eexists; reflexivity]).
    + intros j Hj. vm_compute in Hj. destruct Hj as [<-|[]].
      split; [discriminate | vm_compute; intros [Hx|[Hx|[]]]; discriminate].
    + vm_compute. reflexivity.
    + exists c'. split; [exact Hs|]. rewrite Hst. vm_compute in Hs. injection Hs as <-.
      vm_compute. reflexivity.
  - destruct (updateValueAndValidity_composite_status no_validators 3 status_tree_state
      (res_state (updateValueAndValidity no_validators 4 0 None status_tree_state)) 0
      (default (control_with_value JUndefined) (store status_tree_state !! 0)) None submit)
      as (c' & Hs & Hst).
    + vm_compute. reflexivity.
    + simpl. apply (bool_decide_unpack _). vm_compute. exact I.
    + vm_compute. reflexivity.
    + intros ch Hin. vm_compute in Hin.
      destruct Hin as [<-|[<-|[]]]; (split; [discriminate | vm_compute; eexists; reflexivity]).
    + intros j Hj. vm_compute in Hj. destruct Hj.
    + vm_compute. reflexivity.
    + exists c'. split; [exact Hs|]. rewrite Hst. vm_compute in Hs. injection Hs as <-.
      vm_compute. reflexivity.
Defined.

(** C1 (against the rule): [updateValueAndValidity()] on a group with
    an asynchronous validator and a [VALID] child leaves the group
    [PENDING] where the rule gives [VALID]; on a disabled group whose
    child has been enabled again it leaves the group [DISABLED] where the
    rule, with an enabled child, does not. *)
Lemma group_status_off_rule :
  (exists s', updateValueAndValidity no_validators 3 1 None async_group_state = Ok s' tt /\
     exists c', store s' !! 1 = Some c' /\ status c' = PENDING /\
       spec_composite_status s' [0] (disabled c') (errors c') = VALID) /\
  (exists s', updateValueAndValidity no_validators 3 1 None reenabled_child_state = Ok s' tt /\
     exists c', store s' !! 1 = Some c' /\ status c' = DISABLED /\
       spec_composite_status s' [0] (disabled c') (errors c') = VALID).
Proof.
  split; eexists; (split; [vm_compute; reflexivity|]);
    vm_compute; eexists; repeat split.
Qed.
